(** * Box-transit grid-search fitter (Project_3/transit_model.py)

    A shallow embedding of [create_flux_model], [chi2_test] and
    [fit_transit], and the properties of the fitter's result.

    Number model.  NumPy float64 values are embedded as exact rationals
    ([Q]); rounding and overflow are not modelled.  The two special values
    the program can reach from finite inputs are kept: [+inf] (the initial
    [best_chi2], and a non-zero residual divided by a zero uncertainty) and
    [NaN] (a zero residual divided by a zero uncertainty).  Python
    exceptions are an explicit error result.

    What depends on rounding, overflow, underflow or the array's dtype is
    stated on a second embedding of the two leaf functions, [Binary64], over
    the kernel's binary64 numbers. *)

From Stdlib Require Import QArith Qminmax Qround ZArith List Bool Lia Lqa.
From Stdlib Require Floats.
Import ListNotations.

Local Open Scope Q_scope.

(** ** Results and exceptions *)

Inductive exn : Type :=
| EmptyReduction   (* ndarray.min / ndarray.max of a zero-size array *)
| BroadcastError   (* operands could not be broadcast together *)
| ArangeLength.    (* np.arange cannot compute a length: zero step *)

Inductive result (A : Type) : Type :=
| Ok (a : A)
| Err (e : exn).

Arguments Ok {A} a.
Arguments Err {A} e.

Definition bind {A B} (m : result A) (k : A -> result B) : result B :=
  match m with
  | Ok a => k a
  | Err e => Err e
  end.

Notation "x <- m ;; k" := (bind m (fun x => k))
  (at level 61, m at next level, right associativity).

(** A [for] loop whose body may raise: the state is threaded through the
    items in order and the first exception aborts the loop. *)
Fixpoint for_each {A S} (body : S -> A -> result S) (items : list A) (s : S)
  : result S :=
  match items with
  | [] => Ok s
  | a :: rest =>
      match body s a with
      | Ok s' => for_each body rest s'
      | Err e => Err e
      end
  end.

(** ** Floating-point values with the specials the program can produce *)

Inductive fnum : Type :=
| Num (q : Q)
| PInf
| NInf
| NaN.

Definition Qltb (x y : Q) : bool := negb (Qle_bool y x).

(** [x / s] for finite [x] and [s]; a zero divisor gives a signed infinity
    or NaN (NumPy only warns). *)
Definition fdiv (x s : Q) : fnum :=
  if Qeq_bool s 0 then
    if Qeq_bool x 0 then NaN
    else if Qltb 0 x then PInf else NInf
  else Num (x / s).

(** [x ** 2] *)
Definition fsquare (x : fnum) : fnum :=
  match x with
  | Num q => Num (q ^ 2)
  | PInf | NInf => PInf
  | NaN => NaN
  end.

Definition fadd (x y : fnum) : fnum :=
  match x, y with
  | NaN, _ | _, NaN => NaN
  | PInf, NInf | NInf, PInf => NaN
  | PInf, _ | _, PInf => PInf
  | NInf, _ | _, NInf => NInf
  | Num a, Num b => Num (a + b)
  end.

(** [x < y]; every comparison with NaN is false. *)
Definition flt (x y : fnum) : bool :=
  match x, y with
  | NaN, _ | _, NaN => false
  | _, NInf => false
  | PInf, _ => false
  | NInf, _ => true
  | Num _, PInf => true
  | Num a, Num b => Qltb a b
  end.

(** ** NumPy array primitives on one-dimensional float arrays *)

Definition np_min (a : list Q) : result Q :=
  match a with
  | [] => Err EmptyReduction
  | x :: rest => Ok (fold_left Qmin rest x)
  end.

Definition np_max (a : list Q) : result Q :=
  match a with
  | [] => Err EmptyReduction
  | x :: rest => Ok (fold_left Qmax rest x)
  end.

Definition np_sum (a : list fnum) : fnum := fold_left fadd a (Num 0).

Fixpoint zip_with {A B C} (f : A -> B -> C) (xs : list A) (ys : list B)
  : list C :=
  match xs, ys with
  | x :: xs', y :: ys' => f x y :: zip_with f xs' ys'
  | _, _ => []
  end.

(** Element-wise binary operation with NumPy broadcasting of shapes [(m,)]
    and [(n,)]: a length-one operand is stretched, equal lengths are paired,
    anything else raises. *)
Definition broadcast2 {A B C} (f : A -> B -> C) (xs : list A) (ys : list B)
  : result (list C) :=
  match xs, ys with
  | [x], _ => Ok (map (f x) ys)
  | _, [y] => Ok (map (fun x => f x y) xs)
  | _, _ =>
      if Nat.eqb (length xs) (length ys) then Ok (zip_with f xs ys)
      else Err BroadcastError
  end.

(** The values [start + i * step] for [i = 0 .. len - 1]. *)
Definition arange_vals (start step : Q) (len : nat) : list Q :=
  map (fun i => start + inject_Z (Z.of_nat i) * step) (seq 0 len).

(** [np.arange(start, stop, step)]: [ceil((stop - start) / step)] values, none
    when that is not positive. *)
Definition np_arange (start stop step : Q) : result (list Q) :=
  if Qeq_bool step 0 then Err ArangeLength
  else Ok (arange_vals start step
             (Z.to_nat (Qceiling ((stop - start) / step)))).

(** ** create_flux_model *)

Definition create_flux_model (time : list Q) (t_transit d_transit t1 : Q)
  : list Q :=
  let t2 := t1 + t_transit in
  map (fun t => if Qle_bool t1 t && Qle_bool t t2
                then 1 - d_transit else 1) time.

(** ** chi2_test *)

(** [sigma] is a float or an array. *)
Inductive uncertainty : Type :=
| Scalar (s : Q)
| PerPoint (s : list Q).

Definition chi2_test (flux flux_model : list Q) (sigma : uncertainty)
  : result fnum :=
  resid <- broadcast2 Qminus flux flux_model ;;
  scaled <- match sigma with
            | Scalar s => Ok (map (fun r => fdiv r s) resid)
            | PerPoint ss => broadcast2 fdiv resid ss
            end ;;
  Ok (np_sum (map fsquare scaled)).

(** ** fit_transit *)

(** The returned 6-tuple, which is also the loop's running state. *)
Record FitResult : Type := mkFit {
  best_d : option Q;
  best_T : option Q;
  best_t1 : option Q;
  best_chi2 : fnum;
  best_model : option (list Q);
  count : nat
}.

Definition fit_init : FitResult :=
  {| best_d := None; best_T := None; best_t1 := None;
     best_chi2 := PInf; best_model := None; count := 0 |}.

(** Body of the innermost loop for the triple [(T, d, t1)]. *)
Definition try_candidate (time flux : list Q) (sigma : uncertainty)
    (st : FitResult) (c : Q * Q * Q) : result FitResult :=
  let '(T, d, t1) := c in
  let count' := S (count st) in
  let model := create_flux_model time T d t1 in
  chi2 <- chi2_test flux model sigma ;;
  if flt chi2 (best_chi2 st) then
    Ok {| best_d := Some d; best_T := Some T; best_t1 := Some t1;
          best_chi2 := chi2; best_model := Some model; count := count' |}
  else
    Ok {| best_d := best_d st; best_T := best_T st; best_t1 := best_t1 st;
          best_chi2 := best_chi2 st; best_model := best_model st;
          count := count' |}.

Definition depth_loop (time flux : list Q) (sigma : uncertainty)
    (d_grid t1_grid : list Q) (T : Q) (st : FitResult) : result FitResult :=
  for_each (fun st d =>
      if Qltb d 0 then Ok st
      else for_each (fun st t1 => try_candidate time flux sigma st (T, d, t1))
                    t1_grid st)
    d_grid st.

Definition duration_loop (time flux : list Q) (sigma : uncertainty)
    (d_grid T_grid : list Q) (t1_step t_min t_max : Q) (st : FitResult)
  : result FitResult :=
  for_each (fun st T =>
      if Qle_bool T 0 then Ok st
      else
        let t1_min := t_min in
        let t1_max := t_max - T in
        if Qle_bool t1_max t1_min then Ok st
        else
          t1_grid <- np_arange t1_min (t1_max + (1#2) * t1_step) t1_step ;;
          depth_loop time flux sigma d_grid t1_grid T st)
    T_grid st.

Definition fit_transit (time flux : list Q) (sigma : uncertainty)
    (d_grid T_grid : list Q) (t1_step : Q) : result FitResult :=
  t_min <- np_min time ;;
  t_max <- np_max time ;;
  duration_loop time flux sigma d_grid T_grid t1_step t_min t_max fit_init.

(** ** The search space, as an explicit enumeration *)

(** A duration passes both of the outer loop's tests. *)
Definition feasible (t_min t_max T : Q) : bool :=
  negb (Qle_bool T 0) && negb (Qle_bool (t_max - T) t_min).

(** The start-time grid the fitter builds for duration [T]. *)
Definition t1_grid_for (t_min t_max t1_step T : Q) : list Q :=
  arange_vals t_min t1_step
    (Z.to_nat (Qceiling ((t_max - T + (1#2) * t1_step - t_min) / t1_step))).

(** Every triple [(T, d, t1)] in the order the nested loops reach it:
    durations outermost, depths next, start times innermost. *)
Definition candidates (t_min t_max : Q) (d_grid T_grid : list Q) (t1_step : Q)
  : list (Q * Q * Q) :=
  flat_map (fun T =>
      flat_map (fun d =>
          map (fun t1 => (T, d, t1)) (t1_grid_for t_min t_max t1_step T))
        (filter (fun d => negb (Qltb d 0)) d_grid))
    (filter (feasible t_min t_max) T_grid).

(** The closed-form count: over the durations with [T > 0] and
    [t_max - T > t_min], the number of depths [d >= 0] times the length of the
    start-time grid of [T]. *)
Definition expected_count (t_min t_max : Q) (d_grid T_grid : list Q)
    (t1_step : Q) : nat :=
  list_sum
    (map (fun T =>
            (length (filter (fun d => Qle_bool 0 d) d_grid)
             * length (t1_grid_for t_min t_max t1_step T))%nat)
         (filter (fun T => Qltb 0 T && Qltb t_min (t_max - T)) T_grid)).

(** The residual sum the contract of [chi2_test] names, by index. *)
Definition sigma_at (sigma : uncertainty) (i : nat) : Q :=
  match sigma with
  | Scalar s => s
  | PerPoint ss => nth i ss 0
  end.

Definition chi2_sum (observed predicted : list Q) (sigma : uncertainty) : Q :=
  fold_right Qplus 0
    (map (fun i => ((nth i observed 0 - nth i predicted 0) / sigma_at sigma i) ^ 2)
         (seq 0 (length observed))).

(** Input invariants of the data model. *)
Definition sigma_shape (n : nat) (sigma : uncertainty) : Prop :=
  match sigma with
  | Scalar _ => True
  | PerPoint ss => length ss = n
  end.

Definition sigma_all (P : Q -> Prop) (sigma : uncertainty) : Prop :=
  match sigma with
  | Scalar s => P s
  | PerPoint ss => Forall P ss
  end.

(** The chi-square score of a triple, as the innermost loop computes it. *)
Definition score (time flux : list Q) (sigma : uncertainty) (c : Q * Q * Q)
  : result fnum :=
  let '(T, d, t1) := c in
  chi2_test flux (create_flux_model time T d t1) sigma.

(** The running best of [st'] is the one of [st]. *)
Definition kept (st st' : FitResult) : Prop :=
  best_d st' = best_d st /\ best_T st' = best_T st /\ best_t1 st' = best_t1 st
  /\ best_chi2 st' = best_chi2 st /\ best_model st' = best_model st.

(** The running best of [st] is the triple [(T, d, t1)] with score [x]. *)
Definition chosen (time : list Q) (st : FitResult) (T d t1 : Q) (x : fnum)
  : Prop :=
  best_d st = Some d /\ best_T st = Some T /\ best_t1 st = Some t1
  /\ best_chi2 st = x /\ best_model st = Some (create_flux_model time T d t1).

(** Nothing found yet: the sentinel values. *)
Definition nothing_found (st : FitResult) : Prop :=
  best_d st = None /\ best_T st = None /\ best_t1 st = None
  /\ best_chi2 st = PInf /\ best_model st = None.

(** Whatever the scores are, the running best is the sentinel, or a triple
    satisfying [P] together with that triple's own model and score. *)
Definition consistent (time flux : list Q) (sigma : uncertainty)
    (P : Q * Q * Q -> Prop) (st : FitResult) : Prop :=
  nothing_found st \/
  exists T d t1, P (T, d, t1) /\ chosen time st T d t1 (best_chi2 st)
                 /\ score time flux sigma (T, d, t1) = Ok (best_chi2 st).

(** A small light curve used to exercise the statements: five samples, a
    dip of depth 1/2 over the last two. *)
Definition sample_time : list Q := [0; 1; 2; 3; 4].
Definition sample_flux : list Q := [1; 1; 1; 1#2; 1#2].
Definition sample_sigma : uncertainty := PerPoint [1; 1; 2; 1; 1].
Definition sample_d_grid : list Q := [-(1#4); 0; 1#2].
Definition sample_T_grid : list Q := [-1; 0; 3#2; 1; 9].
Definition sample_step : Q := 1#2.

(** What the fitter returns on the sample: the dip found at its true place,
    after 26 scored triples. *)
Definition sample_result : FitResult :=
  {| best_d := Some (1#2); best_T := Some (3#2); best_t1 := Some (5#2);
     best_chi2 := Num (0#1024);
     best_model := Some [1; 1; 1; 1#2; 1#2];
     count := 26 |}.

(** A second run on the sample grids: a flat light curve with a scalar
    uncertainty finds the first zero-depth triple, after the same 26. *)
Definition flat_result : FitResult :=
  {| best_d := Some 0; best_T := Some (3#2); best_t1 := Some (0#2);
     best_chi2 := Num (0#1);
     best_model := Some [1; 1; 1; 1; 1];
     count := 26 |}.

(** A light curve whose dip sits at the end of the observed window, searched
    with a duration of 5/4 and a unit step. *)
Definition edge_d_grid : list Q := [1#2].
Definition edge_T_grid : list Q := [5#4].

(** ** The leaf functions in binary64 arithmetic

    [create_flux_model] and [chi2_test] once more, over the IEEE 754 binary64
    numbers: every [+], [-], [*], [/] and comparison is the processor's. *)

Module Binary64.
Import Floats.
Local Open Scope float_scope.

(** *** create_flux_model on a float64 time array *)

Definition create_flux_model (time : list float) (t_transit d_transit t1 : float)
  : list float :=
  let t2 := t1 + t_transit in
  map (fun t => if (t1 <=? t) && (t <=? t2) then 1 - d_transit else 1) time.

(** *** create_flux_model on an int64 time array

    [np.ones_like(time)] inherits the integer dtype, the comparisons promote
    the samples to float64, and the assignment casts [1.0 - d_transit] to
    int64. *)




(** *** np.sum of a contiguous float64 array: pairwise summation

    Fewer than eight values are added in order; up to 128 values go through
    eight running sums combined as a balanced tree, the leftover added in
    order; longer arrays are halved (at a multiple of eight) and the two
    halves added. *)

Definition acc8 : Type :=
  (float * float * float * float * float * float * float * float)%type.

Definition add8 (r g : acc8) : acc8 :=
  let '(r0, r1, r2, r3, r4, r5, r6, r7) := r in
  let '(g0, g1, g2, g3, g4, g5, g6, g7) := g in
  (r0 + g0, r1 + g1, r2 + g2, r3 + g3, r4 + g4, r5 + g5, r6 + g6, r7 + g7).

Definition tree8 (r : acc8) : float :=
  let '(r0, r1, r2, r3, r4, r5, r6, r7) := r in
  ((r0 + r1) + (r2 + r3)) + ((r4 + r5) + (r6 + r7)).

(** [r[j] += a[i + j]] over the following full groups of eight. *)
Fixpoint add_groups (r : acc8) (a : list float) : acc8 * list float :=
  match a with
  | a0 :: a1 :: a2 :: a3 :: a4 :: a5 :: a6 :: a7 :: rest =>
      add_groups (add8 r (a0, a1, a2, a3, a4, a5, a6, a7)) rest
  | _ => (r, a)
  end.

Definition block_sum (a : list float) : float :=
  match a with
  | a0 :: a1 :: a2 :: a3 :: a4 :: a5 :: a6 :: a7 :: rest =>
      let '(r, leftover) := add_groups (a0, a1, a2, a3, a4, a5, a6, a7) rest in
      fold_left add leftover (tree8 r)
  | _ => fold_left add a (-0)
  end.

Fixpoint pairwise_sum (fuel : nat) (a : list float) : float :=
  let n := length a in
  if (n <=? 128)%nat then block_sum a
  else
    match fuel with
    | O => block_sum a
    | S fuel' =>
        let n2 := (n / 2 - (n / 2) mod 8)%nat in
        pairwise_sum fuel' (firstn n2 a) + pairwise_sum fuel' (skipn n2 a)
    end.

(** The reduction adds the pairwise sum to its initial value.  (The sign of
    a zero result depends on the NumPy version; nothing below depends on
    it.) *)
Definition np_sum (a : list float) : float := 0 + pairwise_sum (length a) a.

(** *** chi2_test *)

Inductive uncertainty : Type :=
| Scalar (s : float)
| PerPoint (s : list float).

Definition chi2_test (flux flux_model : list float) (sigma : uncertainty)
  : result float :=
  resid <- broadcast2 sub flux flux_model ;;
  scaled <- match sigma with
            | Scalar s => Ok (map (fun r => r / s) resid)
            | PerPoint ss => broadcast2 div resid ss
            end ;;
  Ok (np_sum (map (fun x => x * x) scaled)).

(** *** What the statements about [chi2_test] speak of *)

Definition sigma_at (sigma : uncertainty) (i : nat) : float :=
  match sigma with
  | Scalar s => s
  | PerPoint ss => nth i ss 0
  end.

Definition sigma_shape (n : nat) (sigma : uncertainty) : Prop :=
  match sigma with
  | Scalar _ => True
  | PerPoint ss => length ss = n
  end.

Definition sigma_all (P : float -> Prop) (sigma : uncertainty) : Prop :=
  match sigma with
  | Scalar s => P s
  | PerPoint ss => Forall P ss
  end.

(** The i-th term [((observed_i - predicted_i) / sigma_i) ** 2], every
    operation rounded. *)
Definition chi2_term (observed predicted : list float) (sigma : uncertainty)
    (i : nat) : float :=
  let x := (nth i observed 0 - nth i predicted 0) / sigma_at sigma i in
  x * x.

(** Zero, positive or [+inf]: what [0 <= x] means for a float. *)
Definition nonneg (x : float) : Prop := (0 <=? x) = true.

Definition finite (x : float) : Prop := is_finite x = true.

Definition strictly_positive (x : float) : Prop := is_finite x = true /\ (0 <? x) = true.

(** *** Shapes of a specified float, for the proofs *)

(** Not NaN, with sign bit [s]. *)
Definition signed (s : bool) (x : spec_float) : Prop :=
  match x with
  | S754_zero s' | S754_infinity s' | S754_finite s' _ _ => s' = s
  | S754_nan => False
  end.

Definition not_nan (x : spec_float) : Prop :=
  match x with
  | S754_nan => False
  | _ => True
  end.

(** A zero of either sign or a finite number. *)
Definition sf_finite (x : spec_float) : Prop :=
  match x with
  | S754_zero _ | S754_finite _ _ _ => True
  | _ => False
  end.

(** A zero of either sign, a positive number or [+inf]. *)
Definition sf_nonneg (x : spec_float) : Prop :=
  match x with
  | S754_zero _ => True
  | S754_infinity s | S754_finite s _ _ => s = false
  | S754_nan => False
  end.

Definition acc8_all (P : float -> Prop) (r : acc8) : Prop :=
  let '(r0, r1, r2, r3, r4, r5, r6, r7) := r in
  P r0 /\ P r1 /\ P r2 /\ P r3 /\ P r4 /\ P r5 /\ P r6 /\ P r7.

End Binary64.

(** * Properties *)

(** ** Comparisons *)

Lemma Qltb_lt (x y : Q) : Qltb x y = true <-> x < y.
Proof.
  unfold Qltb. rewrite negb_true_iff. split; intro H.
  - apply Qnot_le_lt. intro Hle. apply Qle_bool_iff in Hle. congruence.
  - destruct (Qle_bool y x) eqn:E; [| reflexivity].
    apply Qle_bool_iff in E. exfalso. apply (Qlt_not_le _ _ H E).
Qed.

Lemma Qltb_ge (x y : Q) : Qltb x y = false <-> y <= x.
Proof.
  unfold Qltb. rewrite negb_false_iff. apply Qle_bool_iff.
Qed.

Lemma flt_Num (a b : Q) : flt (Num a) (Num b) = true <-> a < b.
Proof. simpl. apply Qltb_lt. Qed.

Lemma flt_Num_false (a b : Q) : flt (Num a) (Num b) = false <-> b <= a.
Proof. simpl. apply Qltb_ge. Qed.

(** ** Loops *)

Lemma for_each_app {A S} (body : S -> A -> result S) (l1 l2 : list A) (s : S) :
  for_each body (l1 ++ l2) s = (s' <- for_each body l1 s ;; for_each body l2 s').
Proof.
  revert s. induction l1 as [| a l1 IH]; intro s; simpl; [reflexivity |].
  destruct (body s a); simpl; [apply IH | reflexivity].
Qed.

Lemma for_each_map {A B S} (body : S -> B -> result S) (g : A -> B)
    (l : list A) (s : S) :
  for_each (fun s a => body s (g a)) l s = for_each body (map g l) s.
Proof.
  revert s. induction l as [| a l IH]; intro s; simpl; [reflexivity |].
  destruct (body s (g a)); [apply IH | reflexivity].
Qed.

Lemma np_arange_zero (start stop step : Q) :
  Qeq_bool step 0 = true -> np_arange start stop step = Err ArangeLength.
Proof. intro H. unfold np_arange. rewrite H. reflexivity. Qed.

Lemma np_arange_nonzero (start stop step : Q) :
  Qeq_bool step 0 = false ->
  np_arange start stop step
  = Ok (arange_vals start step (Z.to_nat (Qceiling ((stop - start) / step)))).
Proof. intro H. unfold np_arange. rewrite H. reflexivity. Qed.

Section Flatten.
Variables (time flux : list Q) (sigma : uncertainty).
Variables (d_grid : list Q) (t1_step t_min t_max : Q).

Let visit := try_candidate time flux sigma.

(** The depth loop is one scan over the triples of its duration. *)
Lemma depth_loop_flat (t1_grid : list Q) (T : Q) (st : FitResult) :
  depth_loop time flux sigma d_grid t1_grid T st
  = for_each visit
      (flat_map (fun d => map (fun t1 => (T, d, t1)) t1_grid)
                (filter (fun d => negb (Qltb d 0)) d_grid))
      st.
Proof.
  unfold depth_loop. revert st.
  induction d_grid as [| d ds IH]; intro st; simpl; [reflexivity |].
  destruct (Qltb d 0); simpl; [apply IH |].
  rewrite for_each_app, (for_each_map visit (fun t1 => (T, d, t1))).
  fold visit.
  destruct (for_each visit (map (fun t1 => (T, d, t1)) t1_grid) st);
    simpl; [apply IH | reflexivity].
Qed.

(** The three nested loops are one scan over [candidates], except that a
    zero step makes [np.arange] raise at the first feasible duration,
    before any triple is scored. *)
Lemma duration_loop_flat (T_grid : list Q) (st : FitResult) :
  duration_loop time flux sigma d_grid T_grid t1_step t_min t_max st
  = if Qeq_bool t1_step 0 && existsb (feasible t_min t_max) T_grid
    then Err ArangeLength
    else for_each visit (candidates t_min t_max d_grid T_grid t1_step) st.
Proof.
  unfold duration_loop, candidates. revert st.
  induction T_grid as [| T Ts IH]; intro st; simpl.
  - rewrite andb_false_r. reflexivity.
  - unfold feasible at 1 3.
    destruct (Qle_bool T 0); simpl; [apply IH |].
    destruct (Qle_bool (t_max - T) t_min); simpl; [apply IH |].
    destruct (Qeq_bool t1_step 0) eqn:Hstep; simpl.
    + rewrite (np_arange_zero _ _ _ Hstep). reflexivity.
    + rewrite (np_arange_nonzero _ _ _ Hstep). simpl.
      rewrite depth_loop_flat, for_each_app. fold (t1_grid_for t_min t_max t1_step T).
      destruct (for_each visit _ st); simpl; [| reflexivity].
      rewrite IH. reflexivity.
Qed.
End Flatten.

(** ** One scan over a list of triples *)

Lemma flt_trans (a b c : fnum) :
  flt a b = true -> flt b c = true -> flt a c = true.
Proof.
  destruct a as [x | | |], b as [y | | |], c as [z | | |]; simpl;
    try discriminate; try reflexivity.
  rewrite !Qltb_lt. apply Qlt_trans.
Qed.

Lemma kept_trans (st st1 st' : FitResult) :
  kept st st1 -> kept st1 st' -> kept st st'.
Proof.
  unfold kept. intros (Hd & HT & Ht1 & Hchi & Hm) (Hd' & HT' & Ht1' & Hchi' & Hm').
  rewrite Hd', HT', Ht1', Hchi', Hm'. auto.
Qed.

Lemma chosen_kept (time : list Q) (st st' : FitResult) (T d t1 : Q) (x : fnum) :
  kept st st' -> chosen time st T d t1 x -> chosen time st' T d t1 x.
Proof.
  unfold kept, chosen. intros (Hd & HT & Ht1 & Hchi & Hm).
  rewrite Hd, HT, Ht1, Hchi, Hm. auto.
Qed.

Section Scan.
Variables (time flux : list Q) (sigma : uncertainty).

Let visit := try_candidate time flux sigma.
Let sc := score time flux sigma.

(** What one iteration does, by the outcome of the comparison. *)
Lemma try_candidate_spec (st : FitResult) (T d t1 : Q) (x : fnum) :
  sc (T, d, t1) = Ok x ->
  exists st', visit st (T, d, t1) = Ok st' /\ count st' = S (count st) /\
    if flt x (best_chi2 st) then chosen time st' T d t1 x else kept st st'.
Proof.
  intro Hx. unfold visit, try_candidate. unfold sc, score in Hx.
  rewrite Hx. simpl.
  destruct (flt x (best_chi2 st)); eexists; (split; [reflexivity |]);
    simpl; unfold chosen, kept; simpl; auto 10.
Qed.

Lemma try_candidate_ok (st st' : FitResult) (c : Q * Q * Q) :
  visit st c = Ok st' -> exists x, sc c = Ok x.
Proof.
  destruct c as [[T d] t1]. unfold visit, try_candidate, sc, score.
  destruct (chi2_test _ _ _) as [x | e]; simpl; [eauto | discriminate].
Qed.

Lemma scan_consistent (P : Q * Q * Q -> Prop) (cs : list (Q * Q * Q)) :
  forall st st',
    for_each visit cs st = Ok st' ->
    Forall P cs -> consistent time flux sigma P st ->
    consistent time flux sigma P st' /\ count st' = (count st + length cs)%nat.
Proof.
  induction cs as [| c cs IH]; intros st st' Hrun HP Hst; simpl in *.
  - injection Hrun as <-. split; [assumption | lia].
  - destruct (visit st c) as [st1 |] eqn:Hc; [| discriminate].
    destruct (try_candidate_ok _ _ _ Hc) as [x Hx].
    destruct c as [[T d] t1].
    destruct (try_candidate_spec st T d t1 x Hx) as (st1' & Hc' & Hcount & Hbest).
    rewrite Hc in Hc'. injection Hc' as <-.
    inversion HP as [| ? ? HPc HPcs]; subst.
    destruct (IH st1 st' Hrun HPcs) as [Hcons Hn]; [| split; [assumption | lia]].
    destruct (flt x (best_chi2 st)).
    + right. exists T, d, t1.
      assert (Hx' : best_chi2 st1 = x) by apply Hbest.
      rewrite Hx'. auto.
    + destruct Hbest as (Hd & HT & Ht1 & Hchi & Hm).
      destruct Hst as [Hnone | (T0 & d0 & t0 & HP0 & Hch & Hsc)].
      * left. unfold nothing_found in *. rewrite Hd, HT, Ht1, Hchi, Hm. assumption.
      * right. exists T0, d0, t0. unfold chosen in *.
        rewrite Hd, HT, Ht1, Hchi, Hm. auto.
Qed.

(** With finite scores the scan returns, and its running best is either
    the one it started from (no triple was strictly better) or the first
    triple attaining the least score. *)
Lemma scan_argmin (cs : list (Q * Q * Q)) :
  forall st,
    (forall c, In c cs -> exists q, sc c = Ok (Num q)) ->
    exists st',
      for_each visit cs st = Ok st' /\
      count st' = (count st + length cs)%nat /\
      ((kept st st' /\
        forall c q, In c cs -> sc c = Ok (Num q) ->
                    flt (Num q) (best_chi2 st) = false)
       \/
       exists pre T d t1 post q,
         cs = pre ++ (T, d, t1) :: post /\
         sc (T, d, t1) = Ok (Num q) /\
         flt (Num q) (best_chi2 st) = true /\
         chosen time st' T d t1 (Num q) /\
         (forall c q', In c pre -> sc c = Ok (Num q') -> q < q') /\
         (forall c q', In c post -> sc c = Ok (Num q') -> q <= q')).
Proof.
  induction cs as [| c cs IH]; intros st Hfin.
  - exists st. simpl. split; [reflexivity |]. split; [lia |].
    left. split; [unfold kept; auto | intros c q []].
  - destruct (Hfin c (or_introl eq_refl)) as [qc Hqc].
    destruct c as [[T d] t1].
    destruct (try_candidate_spec st T d t1 _ Hqc) as (st1 & Hv & Hcnt & Hbest).
    destruct (IH st1 (fun c Hc => Hfin c (or_intror Hc)))
      as (st' & Hrun & Hcount & Hres).
    exists st'. cbn [for_each length]. rewrite Hv.
    split; [exact Hrun |]. split; [lia |].
    destruct (flt (Num qc) (best_chi2 st)) eqn:Hcmp.
    + (* this triple replaces the running best *)
      assert (Hb1 : best_chi2 st1 = Num qc) by apply Hbest.
      right. destruct Hres as [[Hk Hge] | Hlater].
      * exists [], T, d, t1, cs, qc.
        split; [reflexivity |]. split; [exact Hqc |]. split; [exact Hcmp |].
        split; [exact (chosen_kept _ _ _ _ _ _ _ Hk Hbest) |].
        split; [intros c q' [] |].
        intros c q' Hin Hq'. apply flt_Num_false.
        rewrite <- Hb1. exact (Hge c q' Hin Hq').
      * destruct Hlater as (pre & T2 & d2 & t2 & post & q2 &
                            Hcs & Hq2 & Hlt & Hch & Hpre & Hpost).
        exists ((T, d, t1) :: pre), T2, d2, t2, post, q2.
        rewrite Hb1 in Hlt.
        split; [simpl; rewrite Hcs; reflexivity |].
        split; [exact Hq2 |].
        split; [exact (flt_trans _ _ _ Hlt Hcmp) |].
        split; [exact Hch |]. split; [| exact Hpost].
        intros c q' [<- | Hin] Hq'.
        -- rewrite Hqc in Hq'. injection Hq' as <-.
           apply flt_Num. exact Hlt.
        -- exact (Hpre c q' Hin Hq').
    + (* the running best stays *)
      assert (Hb1 : best_chi2 st1 = best_chi2 st) by apply Hbest.
      destruct Hres as [[Hk Hge] | Hlater].
      * left. split; [exact (kept_trans _ _ _ Hbest Hk) |].
        intros c q [<- | Hin] Hq.
        -- rewrite Hqc in Hq. injection Hq as <-. exact Hcmp.
        -- rewrite <- Hb1. exact (Hge c q Hin Hq).
      * right.
        destruct Hlater as (pre & T2 & d2 & t2 & post & q2 &
                            Hcs & Hq2 & Hlt & Hch & Hpre & Hpost).
        exists ((T, d, t1) :: pre), T2, d2, t2, post, q2.
        rewrite Hb1 in Hlt.
        split; [simpl; rewrite Hcs; reflexivity |].
        split; [exact Hq2 |]. split; [exact Hlt |].
        split; [exact Hch |]. split; [| exact Hpost].
        intros c q' [<- | Hin] Hq'.
        -- rewrite Hqc in Hq'. injection Hq' as <-.
           destruct (best_chi2 st) as [b | | |]; simpl in Hlt, Hcmp;
             try discriminate.
           apply Qltb_lt in Hlt. apply Qltb_ge in Hcmp.
           apply (Qlt_le_trans _ _ _ Hlt Hcmp).
        -- exact (Hpre c q' Hin Hq').
Qed.
End Scan.

(** ** Arrays *)

Lemma broadcast2_same_length {A B C} (f : A -> B -> C) (xs : list A) (ys : list B) :
  length xs = length ys -> broadcast2 f xs ys = Ok (zip_with f xs ys).
Proof.
  intro H. unfold broadcast2.
  destruct xs as [| x [| x' xs]]; destruct ys as [| y [| y' ys]];
    try discriminate H; try reflexivity.
  rewrite H, Nat.eqb_refl. reflexivity.
Qed.

Lemma zip_with_length {A B C} (f : A -> B -> C) (xs : list A) (ys : list B) :
  length xs = length ys -> length (zip_with f xs ys) = length xs.
Proof.
  revert ys. induction xs as [| x xs IH]; intros [| y ys] H; simpl in *;
    try discriminate; [reflexivity |].
  f_equal. apply IH. lia.
Qed.

Lemma nth_zip_with {A B C} (f : A -> B -> C) (dx : A) (dy : B) (dz : C)
    (xs : list A) (ys : list B) (i : nat) :
  length xs = length ys -> (i < length xs)%nat ->
  nth i (zip_with f xs ys) dz = f (nth i xs dx) (nth i ys dy).
Proof.
  revert ys i. induction xs as [| x xs IH]; intros [| y ys] i H Hi; simpl in *;
    try discriminate; try lia.
  destruct i as [| i]; [reflexivity |]. apply IH; lia.
Qed.

Lemma map_nth_seq {A B} (g : A -> B) (d : A) (xs : list A) :
  map g xs = map (fun i => g (nth i xs d)) (seq 0 (length xs)).
Proof.
  induction xs as [| x xs IH]; simpl; [reflexivity |].
  f_equal. rewrite <- seq_shift, map_map. exact IH.
Qed.

Lemma np_sum_Num (l : list Q) : np_sum (map Num l) = Num (fold_left Qplus l 0).
Proof.
  unfold np_sum. generalize 0 as acc.
  induction l as [| x l IH]; intro acc; simpl; [reflexivity | apply IH].
Qed.

Lemma fold_left_Qplus (l : list Q) (acc : Q) :
  fold_left Qplus l acc == acc + fold_right Qplus 0 l.
Proof.
  revert acc. induction l as [| x l IH]; intro acc; simpl.
  - ring.
  - rewrite IH. ring.
Qed.

Lemma fold_right_Qplus_nonneg (l : list Q) :
  Forall (fun x => 0 <= x) l -> 0 <= fold_right Qplus 0 l.
Proof.
  induction 1 as [| x l Hx _ IH]; simpl; [apply Qle_refl |].
  replace 0 with (0 + 0) by reflexivity. apply Qplus_le_compat; assumption.
Qed.

Lemma Qsquare_nonneg (x : Q) : 0 <= x ^ 2.
Proof.
  assert (H : x ^ 2 == x * x) by (simpl; ring).
  rewrite H. nra.
Qed.

Lemma fdiv_nonzero (x s : Q) : ~ s == 0 -> fdiv x s = Num (x / s).
Proof.
  intro Hs. unfold fdiv. destruct (Qeq_bool s 0) eqn:E; [| reflexivity].
  apply Qeq_bool_iff in E. contradiction.
Qed.

(** ** chi2_test on well-formed inputs *)

Lemma sigma_at_nonzero (n : nat) (sigma : uncertainty) (i : nat) :
  sigma_shape n sigma -> sigma_all (fun s => ~ s == 0) sigma ->
  (i < n)%nat -> ~ sigma_at sigma i == 0.
Proof.
  destruct sigma as [s | ss]; simpl; intros Hshape Hall Hi; [exact Hall |].
  rewrite Forall_forall in Hall. apply Hall, nth_In. lia.
Qed.

Lemma chi2_test_finite (flux model : list Q) (sigma : uncertainty) :
  length flux = length model ->
  sigma_shape (length model) sigma ->
  sigma_all (fun s => ~ s == 0) sigma ->
  exists q, chi2_test flux model sigma = Ok (Num q)
            /\ q == chi2_sum flux model sigma /\ 0 <= q.
Proof.
  intros Hlen Hshape Hnz.
  set (e := fun i => (nth i flux 0 - nth i model 0) / sigma_at sigma i).
  assert (Hres : length (zip_with Qminus flux model) = length flux)
    by (apply zip_with_length; exact Hlen).
  assert (Hscaled :
    match sigma with
    | Scalar s => Ok (map (fun r => fdiv r s) (zip_with Qminus flux model))
    | PerPoint ss => broadcast2 fdiv (zip_with Qminus flux model) ss
    end = Ok (map (fun i => Num (e i)) (seq 0 (length flux)))).
  { destruct sigma as [s | ss]; simpl in Hshape.
    - f_equal. rewrite (map_nth_seq _ 0), Hres.
      apply map_ext_in. intros i Hi. apply in_seq in Hi.
      rewrite (nth_zip_with Qminus 0 0 0) by (assumption || lia).
      apply fdiv_nonzero. exact Hnz.
    - rewrite broadcast2_same_length by lia. f_equal.
      rewrite <- (map_id (zip_with fdiv _ ss)).
      rewrite (map_nth_seq _ NaN), zip_with_length, Hres by lia.
      apply map_ext_in. intros i Hi. apply in_seq in Hi.
      rewrite (nth_zip_with fdiv 0 0 NaN) by lia.
      rewrite (nth_zip_with Qminus 0 0 0) by (assumption || lia).
      apply fdiv_nonzero.
      apply (sigma_at_nonzero (length model) (PerPoint ss)); simpl; auto; lia. }
  exists (fold_left Qplus (map (fun i => e i ^ 2) (seq 0 (length flux))) 0).
  split; [| split].
  - unfold chi2_test. rewrite broadcast2_same_length by exact Hlen.
    cbn [bind]. rewrite Hscaled. cbn [bind].
    rewrite map_map. cbn [fsquare].
    rewrite <- (map_map (fun i => e i ^ 2) Num), np_sum_Num. reflexivity.
  - rewrite fold_left_Qplus, Qplus_0_l. unfold chi2_sum. reflexivity.
  - rewrite fold_left_Qplus, Qplus_0_l. apply fold_right_Qplus_nonneg.
    apply Forall_forall. intros x Hx. apply in_map_iff in Hx.
    destruct Hx as (i & <- & _). apply Qsquare_nonneg.
Qed.

(** ** The enumerated search space *)

Lemma feasible_iff (t_min t_max T : Q) :
  feasible t_min t_max T = true <-> 0 < T /\ t_min < t_max - T.
Proof.
  unfold feasible. rewrite andb_true_iff.
  change (negb (Qle_bool T 0)) with (Qltb 0 T).
  change (negb (Qle_bool (t_max - T) t_min)) with (Qltb t_min (t_max - T)).
  rewrite !Qltb_lt. reflexivity.
Qed.

Lemma in_candidates (t_min t_max : Q) (d_grid T_grid : list Q) (t1_step : Q)
    (T d t1 : Q) :
  In (T, d, t1) (candidates t_min t_max d_grid T_grid t1_step) <->
  (In T T_grid /\ 0 < T /\ t_min < t_max - T) /\
  (In d d_grid /\ 0 <= d) /\
  In t1 (t1_grid_for t_min t_max t1_step T).
Proof.
  unfold candidates. rewrite in_flat_map. split.
  - intros (T' & HT & Hin). apply filter_In in HT. destruct HT as [HT Hf].
    apply in_flat_map in Hin. destruct Hin as (d' & Hd & Hin).
    apply filter_In in Hd. destruct Hd as [Hd Hnn].
    apply in_map_iff in Hin. destruct Hin as (t & Heq & Ht).
    injection Heq as <- <- <-.
    apply feasible_iff in Hf. apply negb_true_iff, Qltb_ge in Hnn. tauto.
  - intros ((HT & HT0 & Hfit) & (Hd & Hd0) & Ht).
    exists T. split.
    + apply filter_In. split; [exact HT |]. apply feasible_iff. tauto.
    + apply in_flat_map. exists d. split.
      * apply filter_In. split; [exact Hd |].
        apply negb_true_iff, Qltb_ge. exact Hd0.
      * apply in_map. exact Ht.
Qed.

Lemma candidates_length (t_min t_max : Q) (d_grid T_grid : list Q) (t1_step : Q) :
  length (candidates t_min t_max d_grid T_grid t1_step)
  = expected_count t_min t_max d_grid T_grid t1_step.
Proof.
  unfold candidates, expected_count. rewrite length_flat_map.
  change (filter (fun T => Qltb 0 T && Qltb t_min (t_max - T)) T_grid)
    with (filter (feasible t_min t_max) T_grid).
  f_equal. apply map_ext. intro T.
  rewrite flat_map_constant_length
    with (c := length (t1_grid_for t_min t_max t1_step T)).
  - f_equal. f_equal. apply filter_ext. intro d.
    unfold Qltb. apply negb_involutive.
  - intros d _. apply length_map.
Qed.

Lemma feasible_none (t_min t_max : Q) (T_grid : list Q) :
  (forall T, In T T_grid -> T <= 0 \/ t_max - T <= t_min) ->
  filter (feasible t_min t_max) T_grid = [] /\
  existsb (feasible t_min t_max) T_grid = false.
Proof.
  intro H.
  assert (Hall : forall T, In T T_grid -> feasible t_min t_max T = false).
  { intros T HT. destruct (feasible t_min t_max T) eqn:E; [| reflexivity].
    apply feasible_iff in E. destruct E as [E1 E2].
    destruct (H T HT) as [Hle | Hle]; exfalso;
      [apply (Qlt_not_le _ _ E1 Hle) | apply (Qlt_not_le _ _ E2 Hle)]. }
  clear H. induction T_grid as [| T Ts IH]; simpl; [auto |].
  rewrite (Hall T (or_introl eq_refl)). simpl.
  apply IH. intros T' HT'. apply Hall. right. exact HT'.
Qed.

(** ** fit_transit as a scan *)

Lemma np_min_nonempty (time : list Q) : time <> [] -> exists t, np_min time = Ok t.
Proof. destruct time; [congruence | simpl; eauto]. Qed.

Lemma np_max_nonempty (time : list Q) : time <> [] -> exists t, np_max time = Ok t.
Proof. destruct time; [congruence | simpl; eauto]. Qed.

Lemma fit_transit_flat (time flux : list Q) (sigma : uncertainty)
    (d_grid T_grid : list Q) (t1_step t_min t_max : Q) :
  np_min time = Ok t_min -> np_max time = Ok t_max ->
  fit_transit time flux sigma d_grid T_grid t1_step
  = if Qeq_bool t1_step 0 && existsb (feasible t_min t_max) T_grid
    then Err ArangeLength
    else for_each (try_candidate time flux sigma)
           (candidates t_min t_max d_grid T_grid t1_step) fit_init.
Proof.
  intros Hmin Hmax. unfold fit_transit. rewrite Hmin, Hmax. cbn [bind].
  apply duration_loop_flat.
Qed.

(** A returned result is the result of the scan over the candidates. *)
Lemma fit_transit_scan (time flux : list Q) (sigma : uncertainty)
    (d_grid T_grid : list Q) (t1_step : Q) (r : FitResult) :
  fit_transit time flux sigma d_grid T_grid t1_step = Ok r ->
  exists t_min t_max,
    np_min time = Ok t_min /\ np_max time = Ok t_max /\
    for_each (try_candidate time flux sigma)
      (candidates t_min t_max d_grid T_grid t1_step) fit_init = Ok r.
Proof.
  intro Hfit.
  destruct (np_min time) as [t_min |] eqn:Hmin;
    [| unfold fit_transit in Hfit; rewrite Hmin in Hfit; discriminate].
  destruct (np_max time) as [t_max |] eqn:Hmax;
    [| unfold fit_transit in Hfit; rewrite Hmin, Hmax in Hfit; discriminate].
  exists t_min, t_max. split; [reflexivity |]. split; [reflexivity |].
  rewrite (fit_transit_flat _ _ _ _ _ _ _ _ Hmin Hmax) in Hfit.
  destruct (Qeq_bool t1_step 0 && existsb (feasible t_min t_max) T_grid);
    [discriminate | exact Hfit].
Qed.

Lemma nothing_found_init (time flux : list Q) (sigma : uncertainty)
    (P : Q * Q * Q -> Prop) :
  consistent time flux sigma P fit_init.
Proof. left. unfold nothing_found. simpl. auto. Qed.

(** The invariants of every returned result. *)
Lemma fit_transit_consistent (time flux : list Q) (sigma : uncertainty)
    (d_grid T_grid : list Q) (t1_step : Q) (r : FitResult) :
  fit_transit time flux sigma d_grid T_grid t1_step = Ok r ->
  exists t_min t_max,
    np_min time = Ok t_min /\ np_max time = Ok t_max /\
    consistent time flux sigma
      (fun c => In c (candidates t_min t_max d_grid T_grid t1_step)) r /\
    count r = expected_count t_min t_max d_grid T_grid t1_step.
Proof.
  intro Hfit.
  destruct (fit_transit_scan _ _ _ _ _ _ _ Hfit) as (t_min & t_max & Hmin & Hmax & Hscan).
  exists t_min, t_max. split; [exact Hmin |]. split; [exact Hmax |].
  rewrite <- candidates_length.
  apply (scan_consistent _ _ _ _ _ _ _ Hscan).
  - apply Forall_forall. auto.
  - apply nothing_found_init.
Qed.

(** On well-formed inputs every candidate has a finite score. *)
Lemma score_finite (time flux : list Q) (sigma : uncertainty) (c : Q * Q * Q) :
  length flux = length time ->
  sigma_shape (length time) sigma ->
  sigma_all (fun s => ~ s == 0) sigma ->
  exists q, score time flux sigma c = Ok (Num q).
Proof.
  intros Hlen Hshape Hnz. destruct c as [[T d] t1]. unfold score.
  assert (Hm : length (create_flux_model time T d t1) = length time)
    by (unfold create_flux_model; apply length_map).
  destruct (chi2_test_finite flux (create_flux_model time T d t1) sigma)
    as (q & Hq & _); [congruence | rewrite Hm; exact Hshape | exact Hnz |].
  eauto.
Qed.

(** ** The fitter returns on well-shaped inputs *)

Lemma chi2_test_returns (flux model : list Q) (sigma : uncertainty) :
  length flux = length model ->
  sigma_shape (length model) sigma ->
  exists x, chi2_test flux model sigma = Ok x.
Proof.
  intros Hlen Hshape. unfold chi2_test.
  rewrite broadcast2_same_length by exact Hlen. cbn [bind].
  destruct sigma as [s | ss]; simpl in Hshape; cbn [bind]; [eauto |].
  rewrite broadcast2_same_length; [cbn [bind]; eauto |].
  rewrite zip_with_length by exact Hlen. congruence.
Qed.

Lemma scan_returns (time flux : list Q) (sigma : uncertainty)
    (cs : list (Q * Q * Q)) :
  (forall c, In c cs -> exists x, score time flux sigma c = Ok x) ->
  forall st, exists st', for_each (try_candidate time flux sigma) cs st = Ok st'.
Proof.
  induction cs as [| c cs IH]; intros Hsc st; [exists st; reflexivity |].
  destruct (Hsc c (or_introl eq_refl)) as [x Hx]. destruct c as [[T d] t1].
  destruct (try_candidate_spec time flux sigma st T d t1 x Hx) as (st1 & Hv & _).
  cbn [for_each]. rewrite Hv. apply IH. intros c Hc. apply Hsc. right. exact Hc.
Qed.

(** No exception on a non-empty time series with a flux of the same length,
    an uncertainty of matching shape and a non-zero step; a zero uncertainty
    only yields infinite or NaN scores. *)
Lemma fit_transit_returns (time flux : list Q) (sigma : uncertainty)
    (d_grid T_grid : list Q) (t1_step : Q) :
  time <> [] ->
  length flux = length time ->
  sigma_shape (length time) sigma ->
  ~ t1_step == 0 ->
  exists r, fit_transit time flux sigma d_grid T_grid t1_step = Ok r.
Proof.
  intros Hne Hlen Hshape Hstep.
  destruct (np_min_nonempty time Hne) as [t_min Hmin].
  destruct (np_max_nonempty time Hne) as [t_max Hmax].
  rewrite (fit_transit_flat _ _ _ _ _ _ _ _ Hmin Hmax).
  destruct (Qeq_bool t1_step 0) eqn:E;
    [apply Qeq_bool_iff in E; contradiction |].
  cbn [andb]. apply scan_returns. intros [[T d] t1] _. unfold score.
  assert (Hm : length (create_flux_model time T d t1) = length time)
    by (unfold create_flux_model; apply length_map).
  apply chi2_test_returns; [congruence | rewrite Hm; exact Hshape].
Qed.

(** * The grid search on well-formed inputs *)

(** On a non-empty time series with a flux of the same length, non-zero
    uncertainties of a matching shape, a non-zero step and at least one
    candidate, the fitter returns and holds the first candidate of least
    score. *)
Lemma fit_transit_argmin (time flux : list Q) (sigma : uncertainty)
    (d_grid T_grid : list Q) (t1_step t_min t_max : Q) :
  np_min time = Ok t_min -> np_max time = Ok t_max ->
  length flux = length time ->
  sigma_shape (length time) sigma ->
  sigma_all (fun s => ~ s == 0) sigma ->
  ~ t1_step == 0 ->
  candidates t_min t_max d_grid T_grid t1_step <> [] ->
  exists r pre T d t1 post q,
    fit_transit time flux sigma d_grid T_grid t1_step = Ok r /\
    candidates t_min t_max d_grid T_grid t1_step = pre ++ (T, d, t1) :: post /\
    score time flux sigma (T, d, t1) = Ok (Num q) /\
    chosen time r T d t1 (Num q) /\
    (forall c q', In c pre -> score time flux sigma c = Ok (Num q') -> q < q') /\
    (forall c q', In c post -> score time flux sigma c = Ok (Num q') -> q <= q').
Proof.
  intros Hmin Hmax Hlen Hshape Hnz Hstep Hne.
  rewrite (fit_transit_flat _ _ _ _ _ _ _ _ Hmin Hmax).
  assert (Hs : Qeq_bool t1_step 0 = false).
  { destruct (Qeq_bool t1_step 0) eqn:E; [| reflexivity].
    apply Qeq_bool_iff in E. contradiction. }
  rewrite Hs. cbn [andb].
  destruct (scan_argmin time flux sigma
              (candidates t_min t_max d_grid T_grid t1_step) fit_init)
    as (r & Hrun & _ & [[_ Hnone] | Hbest]).
  - intros c _. apply score_finite; assumption.
  - exfalso.
    destruct (candidates t_min t_max d_grid T_grid t1_step) as [| c cs];
      [congruence |].
    destruct (score_finite time flux sigma c Hlen Hshape Hnz) as [q Hq].
    specialize (Hnone c q (or_introl eq_refl) Hq). discriminate Hnone.
  - destruct Hbest as (pre & T & d & t1 & post & q &
                       Hcs & Hq & _ & Hch & Hpre & Hpost).
    exists r, pre, T, d, t1, post, q. auto 10.
Qed.

(** The tie in the sample search space: the durations [3/2] and [1] both
    reach score zero, and the one listed first in the duration grid wins. *)
Example tie_goes_to_first_duration :
  (exists r, fit_transit sample_time sample_flux sample_sigma
               sample_d_grid [3#2; 1] sample_step = Ok r
             /\ best_T r = Some (3#2) /\ best_chi2 r = Num (0#1024)) /\
  (exists r, fit_transit sample_time sample_flux sample_sigma
               sample_d_grid [1; 3#2] sample_step = Ok r
             /\ best_T r = Some 1 /\ best_chi2 r = Num (0#1024)).
Proof. split; eexists; (split; [vm_compute; reflexivity | split; reflexivity]). Qed.

(** The unguarded hazard: with a zero uncertainty every score is infinite or
    NaN, no comparison succeeds, and the sentinel comes back with a positive
    count. *)
Example zero_uncertainty_finds_nothing :
  fit_transit sample_time sample_flux (Scalar 0) edge_d_grid edge_T_grid 1
  = Ok {| best_d := None; best_T := None; best_t1 := None;
          best_chi2 := PInf; best_model := None; count := 4 |}.
Proof. vm_compute. reflexivity. Qed.

(** * Invariants of every returned result *)

Lemma found_is_candidate (time flux : list Q) (sigma : uncertainty)
    (d_grid T_grid : list Q) (t1_step : Q) (r : FitResult) (d : Q) :
  fit_transit time flux sigma d_grid T_grid t1_step = Ok r ->
  best_d r = Some d ->
  exists t_min t_max T t1,
    np_min time = Ok t_min /\ np_max time = Ok t_max /\
    In (T, d, t1) (candidates t_min t_max d_grid T_grid t1_step) /\
    chosen time r T d t1 (best_chi2 r) /\
    score time flux sigma (T, d, t1) = Ok (best_chi2 r).
Proof.
  intros Hfit Hd.
  destruct (fit_transit_consistent _ _ _ _ _ _ _ Hfit)
    as (t_min & t_max & Hmin & Hmax & [Hnone | Hsome] & _).
  - destruct Hnone as [Hnone _]. congruence.
  - destruct Hsome as (T & d' & t1 & Hin & Hch & Hsc).
    assert (d' = d) by (destruct Hch as [Hd' _]; congruence). subst d'.
    exists t_min, t_max, T, t1. auto.
Qed.

(** C3. Whatever the grids contain (negative depths, negative or zero
    durations), a returned result that found something has [best_d >= 0] and
    [best_T > 0]. *)
Theorem fit_transit_physical (time flux : list Q) (sigma : uncertainty)
    (d_grid T_grid : list Q) (t1_step : Q) (r : FitResult) (d : Q) :
  fit_transit time flux sigma d_grid T_grid t1_step = Ok r ->
  best_d r = Some d ->
  0 <= d /\ exists T, best_T r = Some T /\ 0 < T.
Proof.
  intros Hfit Hd.
  destruct (found_is_candidate _ _ _ _ _ _ _ _ Hfit Hd)
    as (t_min & t_max & T & t1 & _ & _ & Hin & Hch & _).
  apply in_candidates in Hin. destruct Hin as ((_ & HT & _) & (_ & Hd0) & _).
  split; [exact Hd0 |]. exists T. split; [apply Hch | exact HT].
Qed.

Lemma physical_on_sample :
  0 <= 1#2 /\ exists T, best_T sample_result = Some T /\ 0 < T.
Proof.
  apply (fit_transit_physical sample_time sample_flux sample_sigma
           sample_d_grid sample_T_grid sample_step sample_result (1#2)).
  - vm_compute. reflexivity.
  - reflexivity.
Defined.

(** C9. In a returned result that found something, [best_model] is
    [create_flux_model time best_T best_d best_t1] and [best_chi2] is
    [chi2_test flux best_model sigma]. *)
Theorem fit_transit_components_agree (time flux : list Q) (sigma : uncertainty)
    (d_grid T_grid : list Q) (t1_step : Q) (r : FitResult) (d : Q) :
  fit_transit time flux sigma d_grid T_grid t1_step = Ok r ->
  best_d r = Some d ->
  exists T t1 model,
    best_T r = Some T /\ best_t1 r = Some t1 /\ best_model r = Some model /\
    model = create_flux_model time T d t1 /\
    chi2_test flux model sigma = Ok (best_chi2 r).
Proof.
  intros Hfit Hd.
  destruct (found_is_candidate _ _ _ _ _ _ _ _ Hfit Hd)
    as (t_min & t_max & T & t1 & _ & _ & _ & Hch & Hsc).
  destruct Hch as (_ & HT & Ht1 & _ & Hm).
  exists T, t1, (create_flux_model time T d t1). auto.
Qed.

Lemma components_agree_on_sample :
  exists T t1 model,
    best_T sample_result = Some T /\ best_t1 sample_result = Some t1 /\
    best_model sample_result = Some model /\
    model = create_flux_model sample_time T (1#2) t1 /\
    chi2_test sample_flux model sample_sigma = Ok (best_chi2 sample_result).
Proof.
  apply (fit_transit_components_agree sample_time sample_flux sample_sigma
           sample_d_grid sample_T_grid sample_step sample_result (1#2)).
  - vm_compute. reflexivity.
  - reflexivity.
Defined.

(** C4. The returned count is the closed-form number of triples that pass
    the filters: over the durations [T] of [T_grid] with [T > 0] and
    [t_max - T > t_min], the number of depths [d >= 0] of [d_grid] times the
    length of the start-time grid built for [T]. *)
Theorem fit_transit_count_closed_form (time flux : list Q) (sigma : uncertainty)
    (d_grid T_grid : list Q) (t1_step t_min t_max : Q) (r : FitResult) :
  np_min time = Ok t_min -> np_max time = Ok t_max ->
  fit_transit time flux sigma d_grid T_grid t1_step = Ok r ->
  count r = expected_count t_min t_max d_grid T_grid t1_step.
Proof.
  intros Hmin Hmax Hfit.
  destruct (fit_transit_consistent _ _ _ _ _ _ _ Hfit)
    as (t_min' & t_max' & Hmin' & Hmax' & _ & Hcount).
  rewrite Hmin in Hmin'. rewrite Hmax in Hmax'.
  injection Hmin' as <-. injection Hmax' as <-. exact Hcount.
Qed.

Lemma count_closed_form_on_sample :
  count sample_result
  = expected_count 0 4 sample_d_grid sample_T_grid sample_step.
Proof.
  apply (fit_transit_count_closed_form sample_time sample_flux sample_sigma
           sample_d_grid sample_T_grid sample_step 0 4 sample_result).
  - reflexivity.
  - reflexivity.
  - vm_compute. reflexivity.
Defined.

(** C10. The count does not depend on the flux or on the uncertainty: two
    returning runs on the same time grid, depth grid, duration grid and step
    report the same count. *)
Theorem fit_transit_count_noninterference (time : list Q)
    (d_grid T_grid : list Q) (t1_step : Q)
    (flux1 flux2 : list Q) (sigma1 sigma2 : uncertainty) (r1 r2 : FitResult) :
  fit_transit time flux1 sigma1 d_grid T_grid t1_step = Ok r1 ->
  fit_transit time flux2 sigma2 d_grid T_grid t1_step = Ok r2 ->
  count r1 = count r2.
Proof.
  intros H1 H2.
  destruct (fit_transit_consistent _ _ _ _ _ _ _ H1)
    as (t_min & t_max & Hmin & Hmax & _ & Hc1).
  destruct (fit_transit_consistent _ _ _ _ _ _ _ H2)
    as (t_min' & t_max' & Hmin' & Hmax' & _ & Hc2).
  rewrite Hmin in Hmin'. rewrite Hmax in Hmax'.
  injection Hmin' as <-. injection Hmax' as <-. congruence.
Qed.

Lemma count_noninterference_on_sample :
  count sample_result = count flat_result.
Proof.
  apply (fit_transit_count_noninterference sample_time
           sample_d_grid sample_T_grid sample_step
           sample_flux [1; 1; 1; 1; 1] sample_sigma (Scalar (1#10))).
  - vm_compute. reflexivity.
  - vm_compute. reflexivity.
Defined.

(** * The selected triple *)












(** * No feasible duration *)

(** C5, as the code has it.  On a non-empty time series (so that the
    observed range [t_min], [t_max] exists), if every duration is [<= 0], or
    no positive duration satisfies [t_max - T > t_min], then [fit_transit]
    returns exactly [(None, None, None, +inf, None, 0)] and raises nothing,
    whatever the flux, the uncertainty, the depth grid and the step are. *)
Theorem fit_transit_no_feasible_duration (time flux : list Q)
    (sigma : uncertainty) (d_grid T_grid : list Q) (t1_step t_min t_max : Q) :
  np_min time = Ok t_min -> np_max time = Ok t_max ->
  (forall T, In T T_grid -> T <= 0) \/
  (forall T, In T T_grid -> 0 < T -> ~ t_min < t_max - T) ->
  fit_transit time flux sigma d_grid T_grid t1_step = Ok fit_init.
Proof.
  intros Hmin Hmax Hnone.
  assert (Hskip : forall T, In T T_grid -> T <= 0 \/ t_max - T <= t_min).
  { intros T HT. destruct Hnone as [Hneg | Hfit]; [left; auto |].
    destruct (Qlt_le_dec 0 T) as [Hpos | Hle]; [| left; exact Hle].
    right. apply Qnot_lt_le. exact (Hfit T HT Hpos). }
  destruct (feasible_none t_min t_max T_grid Hskip) as [Hfilter Hexists].
  rewrite (fit_transit_flat _ _ _ _ _ _ _ _ Hmin Hmax), Hexists, andb_false_r.
  unfold candidates. rewrite Hfilter. reflexivity.
Qed.

Lemma no_feasible_duration_on_sample :
  fit_transit sample_time [1; 1] (Scalar 0) sample_d_grid [-1; 0; 4; 9] 0
  = Ok fit_init.
Proof.
  apply (fit_transit_no_feasible_duration sample_time [1; 1] (Scalar 0)
           sample_d_grid [-1; 0; 4; 9] 0 0 4).
  - reflexivity.
  - reflexivity.
  - right. intros T HT Hpos Hfit. simpl in HT.
    repeat (destruct HT as [<- | HT]; [vm_compute in Hpos, Hfit; discriminate |]).
    exact HT.
Defined.

(** C5, as stated, fails on the empty time series: every duration of the
    grid is [<= 0], and the call raises instead of returning the sentinel. *)
Lemma fit_transit_empty_time_raises :
  (forall T, In T [-1; 0] -> T <= 0) /\
  fit_transit [] [] (Scalar 1) [0] [-1; 0] 1 = Err EmptyReduction /\
  fit_transit [] [] (Scalar 1) [0] [-1; 0] 1 <> Ok fit_init.
Proof.
  split; [| split].
  - intros T [<- | [<- | []]]; discriminate.
  - reflexivity.
  - discriminate.
Qed.

(** * The start-time grid and the observed window *)

Lemma in_arange_vals (start step : Q) (len : nat) (t : Q) :
  In t (arange_vals start step len) ->
  exists i, (i < len)%nat /\ t = start + inject_Z (Z.of_nat i) * step.
Proof.
  unfold arange_vals. intro H. apply in_map_iff in H.
  destruct H as (i & <- & Hi). apply in_seq in Hi. exists i. split; [lia | reflexivity].
Qed.

(** What the grid construction does guarantee for a positive step: every
    start time is at least [t_min] and strictly below
    [t_max - T + t1_step / 2]. *)
Lemma t1_grid_for_bounds (t_min t_max t1_step T t1 : Q) :
  0 < t1_step ->
  In t1 (t1_grid_for t_min t_max t1_step T) ->
  t_min <= t1 /\ t1 < t_max - T + (1#2) * t1_step.
Proof.
  intros Hstep Hin. unfold t1_grid_for in Hin.
  apply in_arange_vals in Hin. destruct Hin as (i & Hi & ->).
  set (x := (t_max - T + (1#2) * t1_step - t_min) / t1_step) in *.
  assert (H0 : 0 <= inject_Z (Z.of_nat i)).
  { change 0 with (inject_Z 0). rewrite <- Zle_Qle. lia. }
  assert (Hprod : 0 <= inject_Z (Z.of_nat i) * t1_step)
    by (apply Qmult_le_0_compat; [exact H0 | apply Qlt_le_weak; exact Hstep]).
  split; [lra |].
  assert (Hlt : inject_Z (Z.of_nat i) < x).
  { apply Qle_lt_trans with (inject_Z (Qceiling x - 1)).
    - rewrite <- Zle_Qle. lia.
    - apply Qceiling_lt. }
  apply (Qmult_lt_compat_r _ _ t1_step Hstep) in Hlt.
  assert (Hx : x * t1_step == t_max - T + (1#2) * t1_step - t_min).
  { unfold x. field. intro Hz. rewrite Hz in Hstep. exact (Qlt_irrefl 0 Hstep). }
  rewrite Hx in Hlt. lra.
Qed.

(** C2 at a failing input.  With samples at 0..4, duration 5/4 and unit
    step, the last admissible start time is [t_max - T = 11/4]; the grid is
    [0, 1, 2, 3], the fitter selects [t1 = 3], and the selected transit ends
    at [17/4], after the last observation. *)
Theorem fit_transit_overshoots_window :
  np_min sample_time = Ok 0 /\ np_max sample_time = Ok 4 /\
  t1_grid_for 0 4 1 (5#4) = [0; 1; 2; 3] /\
  exists r,
    fit_transit sample_time sample_flux (Scalar 1) edge_d_grid edge_T_grid 1
    = Ok r /\
    best_T r = Some (5#4) /\ best_t1 r = Some 3 /\
    4 - (5#4) < 3 /\ 4 < 3 + (5#4).
Proof.
  split; [reflexivity |]. split; [reflexivity |]. split; [reflexivity |].
  eexists. split; [vm_compute; reflexivity |].
  repeat split.
Qed.

(** * Further properties of the fitter *)

(** ** Exceptions *)

Lemma Qeq_bool_false (x y : Q) : ~ x == y -> Qeq_bool x y = false.
Proof.
  intro H. destruct (Qeq_bool x y) eqn:E; [| reflexivity].
  apply Qeq_bool_iff in E. contradiction.
Qed.

Lemma broadcast2_mismatch {A B C} (f : A -> B -> C) (xs : list A) (ys : list B) :
  length xs <> length ys -> length xs <> 1%nat -> length ys <> 1%nat ->
  broadcast2 f xs ys = Err BroadcastError.
Proof.
  intros Hne Hx Hy. unfold broadcast2.
  destruct xs as [| x [| x' xs]]; destruct ys as [| y [| y' ys]];
    simpl in *; try congruence;
    try (destruct (Nat.eqb_spec (length xs) (length ys)); congruence).
Qed.

(** X1. A zero step raises as soon as one duration is feasible: [np.arange]
    is called for the first feasible duration before any triple is scored,
    so flux, uncertainty and depth grid play no part. *)
Theorem fit_transit_zero_step_raises (time flux : list Q) (sigma : uncertainty)
    (d_grid T_grid : list Q) (t1_step t_min t_max T : Q) :
  np_min time = Ok t_min -> np_max time = Ok t_max ->
  t1_step == 0 ->
  In T T_grid -> 0 < T -> t_min < t_max - T ->
  fit_transit time flux sigma d_grid T_grid t1_step = Err ArangeLength.
Proof.
  intros Hmin Hmax Hstep HT Hpos Hfit.
  rewrite (fit_transit_flat _ _ _ _ _ _ _ _ Hmin Hmax).
  apply Qeq_bool_iff in Hstep. rewrite Hstep. cbn [andb].
  assert (He : existsb (feasible t_min t_max) T_grid = true).
  { apply existsb_exists. exists T. split; [exact HT |].
    apply feasible_iff. split; assumption. }
  rewrite He. reflexivity.
Qed.

Lemma zero_step_raises_on_sample :
  fit_transit sample_time sample_flux sample_sigma sample_d_grid sample_T_grid 0
  = Err ArangeLength.
Proof.
  apply (fit_transit_zero_step_raises sample_time sample_flux sample_sigma
           sample_d_grid sample_T_grid 0 0 4 1).
  - reflexivity.
  - reflexivity.
  - reflexivity.
  - simpl. auto.
  - reflexivity.
  - reflexivity.
Defined.

(** X2. A flux whose length is neither the length of the time series nor one
    raises at the first scored triple: with a non-zero step and at least one
    candidate the call ends in a broadcast error. *)
Theorem fit_transit_flux_shape_raises (time flux : list Q) (sigma : uncertainty)
    (d_grid T_grid : list Q) (t1_step t_min t_max : Q) :
  np_min time = Ok t_min -> np_max time = Ok t_max ->
  ~ t1_step == 0 ->
  candidates t_min t_max d_grid T_grid t1_step <> [] ->
  length flux <> length time ->
  length flux <> 1%nat -> length time <> 1%nat ->
  fit_transit time flux sigma d_grid T_grid t1_step = Err BroadcastError.
Proof.
  intros Hmin Hmax Hstep Hne Hlen Hf Ht.
  rewrite (fit_transit_flat _ _ _ _ _ _ _ _ Hmin Hmax).
  rewrite (Qeq_bool_false _ _ Hstep). cbn [andb].
  destruct (candidates t_min t_max d_grid T_grid t1_step) as [| [[T d] t1] cs];
    [congruence |].
  cbn [for_each]. unfold try_candidate, chi2_test.
  assert (Hm : length (create_flux_model time T d t1) = length time)
    by (unfold create_flux_model; apply length_map).
  rewrite broadcast2_mismatch by (rewrite ?Hm; assumption).
  reflexivity.
Qed.

Lemma flux_shape_raises_on_sample :
  fit_transit sample_time [1; 1; 1] sample_sigma
    sample_d_grid sample_T_grid sample_step
  = Err BroadcastError.
Proof.
  apply (fit_transit_flux_shape_raises sample_time [1; 1; 1] sample_sigma
           sample_d_grid sample_T_grid sample_step 0 4).
  - reflexivity.
  - reflexivity.
  - discriminate.
  - vm_compute. discriminate.
  - simpl. lia.
  - simpl. lia.
  - simpl. lia.
Defined.

(** ** A zero uncertainty *)

Lemma flt_special (x y : fnum) : x = PInf \/ x = NaN -> flt x y = false.
Proof. intros [-> | ->]; destruct y; reflexivity. Qed.

Lemma fold_fadd_special (l : list fnum) (acc : fnum) :
  Forall (fun x => x = PInf \/ x = NaN) l ->
  acc = PInf \/ acc = NaN ->
  fold_left fadd l acc = PInf \/ fold_left fadd l acc = NaN.
Proof.
  intro Hl. revert acc. induction Hl as [| x l Hx _ IH]; intros acc Hacc; simpl;
    [exact Hacc |].
  apply IH. destruct Hacc as [-> | ->], Hx as [-> | ->]; simpl; auto.
Qed.

Lemma np_sum_special (l : list fnum) :
  l <> [] -> Forall (fun x => x = PInf \/ x = NaN) l ->
  np_sum l = PInf \/ np_sum l = NaN.
Proof.
  intros Hne Hl. destruct l as [| x l]; [congruence |].
  inversion Hl as [| ? ? Hx Hrest]; subst. unfold np_sum. simpl.
  apply fold_fadd_special; [exact Hrest |].
  destruct Hx as [-> | ->]; simpl; auto.
Qed.

Lemma fsquare_fdiv_zero (r s : Q) :
  s == 0 -> fsquare (fdiv r s) = PInf \/ fsquare (fdiv r s) = NaN.
Proof.
  intro Hs. apply Qeq_bool_iff in Hs. unfold fdiv. rewrite Hs.
  destruct (Qeq_bool r 0); [right; reflexivity |].
  destruct (Qltb 0 r); left; reflexivity.
Qed.

Lemma chi2_test_zero_sigma (flux model : list Q) (s : Q) :
  length flux = length model -> model <> [] -> s == 0 ->
  exists x, chi2_test flux model (Scalar s) = Ok x /\ (x = PInf \/ x = NaN).
Proof.
  intros Hlen Hne Hs. unfold chi2_test.
  rewrite broadcast2_same_length by exact Hlen. cbn [bind].
  eexists. split; [reflexivity |].
  rewrite map_map. apply np_sum_special.
  - destruct flux, model; simpl in *; congruence.
  - apply Forall_forall. intros x Hx. apply in_map_iff in Hx.
    destruct Hx as (r & <- & _). apply fsquare_fdiv_zero. exact Hs.
Qed.

(** A scan in which no score beats the running best keeps it. *)
Lemma scan_no_improvement (time flux : list Q) (sigma : uncertainty)
    (cs : list (Q * Q * Q)) :
  forall st,
    (forall c, In c cs ->
       exists x, score time flux sigma c = Ok x /\ flt x (best_chi2 st) = false) ->
    exists st', for_each (try_candidate time flux sigma) cs st = Ok st'
                /\ kept st st' /\ count st' = (count st + length cs)%nat.
Proof.
  induction cs as [| c cs IH]; intros st Hsc.
  - exists st. simpl. split; [reflexivity |]. split; [unfold kept; auto | lia].
  - destruct (Hsc c (or_introl eq_refl)) as (x & Hx & Hcmp).
    destruct c as [[T d] t1].
    destruct (try_candidate_spec time flux sigma st T d t1 x Hx)
      as (st1 & Hv & Hcnt & Hbest).
    rewrite Hcmp in Hbest.
    destruct (IH st1) as (st' & Hrun & Hk & Hcount).
    { intros c Hc. destruct (Hsc c (or_intror Hc)) as (y & Hy & Hcmp').
      exists y. split; [exact Hy |].
      destruct Hbest as (_ & _ & _ & -> & _). exact Hcmp'. }
    exists st'. cbn [for_each length]. rewrite Hv.
    split; [exact Hrun |]. split; [exact (kept_trans _ _ _ Hbest Hk) | lia].
Qed.

(** X3. With a scalar uncertainty equal to zero nothing is ever selected:
    on a non-empty time series with a flux of the same length and a
    non-zero step the call returns the sentinel values, with every candidate
    counted. *)
Theorem fit_transit_zero_sigma (time flux : list Q) (s : Q)
    (d_grid T_grid : list Q) (t1_step t_min t_max : Q) :
  np_min time = Ok t_min -> np_max time = Ok t_max ->
  length flux = length time ->
  s == 0 -> ~ t1_step == 0 ->
  exists r,
    fit_transit time flux (Scalar s) d_grid T_grid t1_step = Ok r /\
    nothing_found r /\
    count r = expected_count t_min t_max d_grid T_grid t1_step.
Proof.
  intros Hmin Hmax Hlen Hs Hstep.
  rewrite (fit_transit_flat _ _ _ _ _ _ _ _ Hmin Hmax).
  rewrite (Qeq_bool_false _ _ Hstep). cbn [andb].
  destruct (scan_no_improvement time flux (Scalar s)
              (candidates t_min t_max d_grid T_grid t1_step) fit_init)
    as (r & Hrun & Hk & Hcount).
  - intros [[T d] t1] _. unfold score.
    destruct (chi2_test_zero_sigma flux (create_flux_model time T d t1) s)
      as (x & Hx & Hsp).
    + unfold create_flux_model. rewrite length_map. exact Hlen.
    + unfold create_flux_model. destruct time; [discriminate Hmin | discriminate].
    + exact Hs.
    + exists x. split; [exact Hx | apply flt_special; exact Hsp].
  - exists r. split; [exact Hrun |]. split.
    + destruct Hk as (Hd & HT & Ht1 & Hchi & Hm). unfold nothing_found.
      rewrite Hd, HT, Ht1, Hchi, Hm. simpl. auto.
    + rewrite Hcount, candidates_length. reflexivity.
Qed.

Lemma zero_sigma_on_sample :
  exists r,
    fit_transit sample_time sample_flux (Scalar 0)
      sample_d_grid sample_T_grid sample_step = Ok r /\
    nothing_found r /\
    count r = expected_count 0 4 sample_d_grid sample_T_grid sample_step.
Proof.
  apply (fit_transit_zero_sigma sample_time sample_flux 0
           sample_d_grid sample_T_grid sample_step 0 4).
  - reflexivity.
  - reflexivity.
  - reflexivity.
  - reflexivity.
  - discriminate.
Defined.

(** ** Unphysical grid entries *)

Lemma filter_filter_implied {A} (p q : A -> bool) (l : list A) :
  (forall x, p x = true -> q x = true) -> filter p (filter q l) = filter p l.
Proof.
  intro H. induction l as [| x l IH]; simpl; [reflexivity |].
  destruct (q x) eqn:Eq; simpl.
  - rewrite IH. reflexivity.
  - destruct (p x) eqn:Ep; [| exact IH].
    apply H in Ep. congruence.
Qed.

Lemma existsb_filter_implied {A} (p q : A -> bool) (l : list A) :
  (forall x, p x = true -> q x = true) -> existsb p (filter q l) = existsb p l.
Proof.
  intro H. induction l as [| x l IH]; simpl; [reflexivity |].
  destruct (q x) eqn:Eq; simpl.
  - rewrite IH. reflexivity.
  - destruct (p x) eqn:Ep; [| exact IH].
    apply H in Ep. congruence.
Qed.

(** X4. Negative depths and non-positive durations are inert: removing them
    from the grids before the call changes nothing of the outcome, neither
    the result, nor the count, nor an exception. *)
Theorem fit_transit_ignores_unphysical (time flux : list Q)
    (sigma : uncertainty) (d_grid T_grid : list Q) (t1_step : Q) :
  fit_transit time flux sigma
    (filter (fun d => Qle_bool 0 d) d_grid)
    (filter (fun T => Qltb 0 T) T_grid) t1_step
  = fit_transit time flux sigma d_grid T_grid t1_step.
Proof.
  destruct (np_min time) as [t_min |] eqn:Hmin;
    [| unfold fit_transit; rewrite Hmin; reflexivity].
  destruct (np_max time) as [t_max |] eqn:Hmax;
    [| unfold fit_transit; rewrite Hmin, Hmax; reflexivity].
  rewrite !(fit_transit_flat _ _ _ _ _ _ _ _ Hmin Hmax).
  assert (HT : forall T, feasible t_min t_max T = true -> Qltb 0 T = true).
  { intros T H. unfold feasible in H. apply andb_true_iff in H. apply H. }
  rewrite (existsb_filter_implied _ _ _ HT).
  unfold candidates. rewrite (filter_filter_implied _ _ _ HT).
  rewrite (filter_filter_implied (fun d => negb (Qltb d 0))
             (fun d => Qle_bool 0 d)).
  - reflexivity.
  - intros d H. unfold Qltb in H. rewrite negb_involutive in H. exact H.
Qed.

(** ** Shape of a successful result *)

(** X5. A returned result that found something carries a model as long as
    the time series and a count of at least one. *)
Theorem fit_transit_success_shape (time flux : list Q) (sigma : uncertainty)
    (d_grid T_grid : list Q) (t1_step : Q) (r : FitResult) (d : Q) :
  fit_transit time flux sigma d_grid T_grid t1_step = Ok r ->
  best_d r = Some d ->
  (exists model, best_model r = Some model /\ length model = length time) /\
  (1 <= count r)%nat.
Proof.
  intros Hfit Hd.
  destruct (fit_transit_consistent _ _ _ _ _ _ _ Hfit)
    as (t_min & t_max & _ & _ & [Hnone | Hsome] & Hcount).
  - destruct Hnone as [Hnone _]. congruence.
  - destruct Hsome as (T & d' & t1 & Hin & Hch & _). split.
    + exists (create_flux_model time T d' t1). split; [apply Hch |].
      unfold create_flux_model. apply length_map.
    + rewrite Hcount, <- candidates_length.
      destruct (candidates t_min t_max d_grid T_grid t1_step);
        [destruct Hin | simpl; lia].
Qed.

Lemma success_shape_on_sample :
  (exists model, best_model sample_result = Some model
                 /\ length model = length sample_time) /\
  (1 <= count sample_result)%nat.
Proof.
  apply (fit_transit_success_shape sample_time sample_flux sample_sigma
           sample_d_grid sample_T_grid sample_step sample_result (1#2)).
  - vm_compute. reflexivity.
  - reflexivity.
Defined.

(** X6. With a flux as long as the time series and non-zero uncertainties of
    matching shape, the chi-square of a found result is a finite,
    non-negative number. *)
Theorem fit_transit_chi2_nonneg (time flux : list Q) (sigma : uncertainty)
    (d_grid T_grid : list Q) (t1_step : Q) (r : FitResult) (d : Q) :
  length flux = length time ->
  sigma_shape (length time) sigma ->
  sigma_all (fun s => ~ s == 0) sigma ->
  fit_transit time flux sigma d_grid T_grid t1_step = Ok r ->
  best_d r = Some d ->
  exists q, best_chi2 r = Num q /\ 0 <= q.
Proof.
  intros Hlen Hshape Hnz Hfit Hd.
  destruct (found_is_candidate _ _ _ _ _ _ _ _ Hfit Hd)
    as (t_min & t_max & T & t1 & _ & _ & _ & _ & Hsc).
  unfold score in Hsc.
  assert (Hm : length (create_flux_model time T d t1) = length time)
    by (unfold create_flux_model; apply length_map).
  destruct (chi2_test_finite flux (create_flux_model time T d t1) sigma)
    as (q & Hq & _ & Hpos);
    [congruence | rewrite Hm; exact Hshape | exact Hnz |].
  exists q. split; [congruence | exact Hpos].
Qed.

Lemma chi2_nonneg_on_sample :
  exists q, best_chi2 sample_result = Num q /\ 0 <= q.
Proof.
  apply (fit_transit_chi2_nonneg sample_time sample_flux sample_sigma
           sample_d_grid sample_T_grid sample_step sample_result (1#2)).
  - reflexivity.
  - reflexivity.
  - simpl. repeat constructor; discriminate.
  - vm_compute. reflexivity.
  - reflexivity.
Defined.

(** ** The start-time grid *)

Lemma candidates_nil (t_min t_max : Q) (d_grid T_grid : list Q) (t1_step : Q) :
  (forall T, In T T_grid -> 0 < T -> t_min < t_max - T ->
             t1_grid_for t_min t_max t1_step T = []) ->
  candidates t_min t_max d_grid T_grid t1_step = [].
Proof.
  intro H.
  destruct (candidates t_min t_max d_grid T_grid t1_step) as [| [[T d] t1] cs] eqn:E;
    [reflexivity |].
  assert (Hin : In (T, d, t1) (candidates t_min t_max d_grid T_grid t1_step))
    by (rewrite E; left; reflexivity).
  apply in_candidates in Hin. destruct Hin as ((HT & Hpos & Hfit) & _ & Hgrid).
  rewrite (H T HT Hpos Hfit) in Hgrid. destruct Hgrid.
Qed.

Lemma t1_grid_for_negative_step (t_min t_max t1_step T : Q) :
  t1_step < 0 ->
  t_min <= t_max - T + (1#2) * t1_step ->
  t1_grid_for t_min t_max t1_step T = [].
Proof.
  intros Hstep Hroom. unfold t1_grid_for.
  set (num := t_max - T + (1#2) * t1_step - t_min).
  assert (Hx : num / t1_step <= 0).
  { assert (Heq : num / t1_step == (- num) / (- t1_step)).
    { field. intro Hz. rewrite Hz in Hstep. exact (Qlt_irrefl 0 Hstep). }
    rewrite Heq. apply Qle_shift_div_r; [lra | unfold num; lra]. }
  apply Qceiling_resp_le in Hx. change (Qceiling 0) with 0%Z in Hx.
  replace (Z.to_nat (Qceiling (num / t1_step))) with 0%nat by lia.
  reflexivity.
Qed.

(** X9. A negative step is not rejected: when every feasible duration leaves
    room for half a step ([t_min <= t_max - T + t1_step / 2]) each start-time
    grid is empty, and the call returns the sentinel with count zero although
    feasible durations exist. *)
Theorem fit_transit_negative_step (time flux : list Q) (sigma : uncertainty)
    (d_grid T_grid : list Q) (t1_step t_min t_max : Q) :
  np_min time = Ok t_min -> np_max time = Ok t_max ->
  t1_step < 0 ->
  (forall T, In T T_grid -> 0 < T -> t_min < t_max - T ->
             t_min <= t_max - T + (1#2) * t1_step) ->
  fit_transit time flux sigma d_grid T_grid t1_step = Ok fit_init.
Proof.
  intros Hmin Hmax Hstep Hroom.
  rewrite (fit_transit_flat _ _ _ _ _ _ _ _ Hmin Hmax).
  rewrite Qeq_bool_false
    by (intro Hz; rewrite Hz in Hstep; exact (Qlt_irrefl 0 Hstep)).
  cbn [andb]. rewrite candidates_nil; [reflexivity |].
  intros T HT Hpos Hfit. apply t1_grid_for_negative_step; auto.
Qed.

Lemma negative_step_on_sample :
  fit_transit sample_time sample_flux sample_sigma
    sample_d_grid sample_T_grid (-(1#2))
  = Ok fit_init.
Proof.
  apply (fit_transit_negative_step sample_time sample_flux sample_sigma
           sample_d_grid sample_T_grid (-(1#2)) 0 4).
  - reflexivity.
  - reflexivity.
  - reflexivity.
  - intros T HT Hpos Hfit. simpl in HT.
    repeat (destruct HT as [<- | HT];
            [first [ discriminate Hpos | discriminate Hfit | discriminate ] |]).
    destruct HT.
Defined.

(** ** Refining the grids *)

(** On well-formed inputs with a candidate, the returned chi-square is a
    lower bound of every candidate's score. *)
Lemma fit_transit_min_le (time flux : list Q) (sigma : uncertainty)
    (d_grid T_grid : list Q) (t1_step t_min t_max : Q) :
  np_min time = Ok t_min -> np_max time = Ok t_max ->
  length flux = length time ->
  sigma_shape (length time) sigma ->
  sigma_all (fun s => ~ s == 0) sigma ->
  ~ t1_step == 0 ->
  candidates t_min t_max d_grid T_grid t1_step <> [] ->
  exists r q,
    fit_transit time flux sigma d_grid T_grid t1_step = Ok r /\
    best_chi2 r = Num q /\
    forall c q', In c (candidates t_min t_max d_grid T_grid t1_step) ->
                 score time flux sigma c = Ok (Num q') -> q <= q'.
Proof.
  intros Hmin Hmax Hlen Hshape Hnz Hstep Hne.
  destruct (fit_transit_argmin time flux sigma d_grid T_grid t1_step t_min t_max)
    as (r & pre & T & d & t1 & post & q & Hfit & Hcs & Hq & Hch & Hpre & Hpost);
    try assumption.
  exists r, q. split; [exact Hfit |]. split; [apply Hch |].
  intros c q' Hc Hq'. rewrite Hcs in Hc. apply in_app_or in Hc.
  destruct Hc as [Hc | [<- | Hc]].
  - apply Qlt_le_weak. exact (Hpre c q' Hc Hq').
  - rewrite Hq in Hq'. injection Hq' as <-. apply Qle_refl.
  - exact (Hpost c q' Hc Hq').
Qed.

(** X13. Enlarging the grids never worsens the fit: on well-formed inputs,
    if a search found chi-square [q], a search whose depth and duration grids
    contain those of the first returns a chi-square of at most [q]. *)
Theorem fit_transit_refine_grid (time flux : list Q) (sigma : uncertainty)
    (d_grid T_grid d_grid' T_grid' : list Q) (t1_step : Q)
    (r : FitResult) (q : Q) :
  length flux = length time ->
  sigma_shape (length time) sigma ->
  sigma_all (fun s => ~ s == 0) sigma ->
  ~ t1_step == 0 ->
  incl d_grid d_grid' -> incl T_grid T_grid' ->
  fit_transit time flux sigma d_grid T_grid t1_step = Ok r ->
  best_chi2 r = Num q ->
  exists r' q',
    fit_transit time flux sigma d_grid' T_grid' t1_step = Ok r' /\
    best_chi2 r' = Num q' /\ q' <= q.
Proof.
  intros Hlen Hshape Hnz Hstep Hd HT Hfit Hq.
  destruct (fit_transit_consistent _ _ _ _ _ _ _ Hfit)
    as (t_min & t_max & Hmin & Hmax & [Hnone | Hsome] & _).
  - destruct Hnone as (_ & _ & _ & Hinf & _). congruence.
  - destruct Hsome as (T & d & t1 & Hin & _ & Hsc). rewrite Hq in Hsc.
    assert (Hin' : In (T, d, t1) (candidates t_min t_max d_grid' T_grid' t1_step)).
    { apply in_candidates. apply in_candidates in Hin.
      destruct Hin as ((H1 & H2) & (H3 & H4) & H5).
      split; [split; [apply HT; exact H1 | exact H2] |].
      split; [split; [apply Hd; exact H3 | exact H4] | exact H5]. }
    destruct (fit_transit_min_le time flux sigma d_grid' T_grid' t1_step
                t_min t_max) as (r' & q' & Hfit' & Hq' & Hmin');
      try assumption.
    { intro Hnil. rewrite Hnil in Hin'. destruct Hin'. }
    exists r', q'. split; [exact Hfit' |]. split; [exact Hq' |].
    exact (Hmin' _ q Hin' Hsc).
Qed.

Lemma refine_grid_on_sample :
  exists r' q',
    fit_transit sample_time sample_flux sample_sigma
      sample_d_grid (2 :: sample_T_grid) sample_step = Ok r' /\
    best_chi2 r' = Num q' /\ q' <= 256#4096.
Proof.
  apply (fit_transit_refine_grid sample_time sample_flux sample_sigma
           [1#2] [2] sample_d_grid (2 :: sample_T_grid) sample_step
           {| best_d := Some (1#2); best_T := Some 2; best_t1 := Some (4#2);
              best_chi2 := Num (256#4096);
              best_model := Some [1; 1; 1#2; 1#2; 1#2]; count := 5 |}
           (256#4096)).
  - reflexivity.
  - reflexivity.
  - simpl. repeat constructor; discriminate.
  - discriminate.
  - intros x [<- | []]. simpl. auto.
  - intros x [<- | []]. simpl. auto.
  - vm_compute. reflexivity.
  - reflexivity.
Defined.

(** ** The first minimum is unique *)

Lemma first_min_unique {A} (sc : A -> Q -> Prop) (pre1 : list A) :
  forall (pre2 post1 post2 : list A) (c1 c2 : A) (q1 q2 : Q),
    pre1 ++ c1 :: post1 = pre2 ++ c2 :: post2 ->
    sc c1 q1 -> sc c2 q2 ->
    (forall c q', In c pre1 -> sc c q' -> q1 < q') ->
    (forall c q', In c post1 -> sc c q' -> q1 <= q') ->
    (forall c q', In c pre2 -> sc c q' -> q2 < q') ->
    (forall c q', In c post2 -> sc c q' -> q2 <= q') ->
    pre1 = pre2 /\ c1 = c2 /\ post1 = post2.
Proof.
  induction pre1 as [| a pre1 IH];
    intros [| b pre2] post1 post2 c1 c2 q1 q2 Heq H1 H2 Hpre1 Hpost1 Hpre2 Hpost2;
    simpl in Heq; injection Heq as Hhead Htail.
  - auto.
  - exfalso. subst b.
    assert (Hlt : q2 < q1) by (apply (Hpre2 c1); [left; reflexivity | exact H1]).
    assert (Hle : q1 <= q2).
    { apply (Hpost1 c2); [| exact H2]. rewrite Htail. apply in_elt. }
    exact (Qlt_not_le _ _ Hlt Hle).
  - exfalso. subst a.
    assert (Hlt : q1 < q2) by (apply (Hpre1 c2); [left; reflexivity | exact H2]).
    assert (Hle : q2 <= q1).
    { apply (Hpost2 c1); [| exact H1]. rewrite <- Htail. apply in_elt. }
    exact (Qlt_not_le _ _ Hlt Hle).
  - subst b.
    destruct (IH pre2 post1 post2 c1 c2 q1 q2 Htail H1 H2) as (-> & -> & ->);
      auto.
    + intros c q' Hc. apply Hpre1. right. exact Hc.
    + intros c q' Hc. apply Hpre2. right. exact Hc.
Qed.

(** ** Splitting the duration grid *)

Lemma candidates_app (t_min t_max : Q) (d_grid T1 T2 : list Q) (t1_step : Q) :
  candidates t_min t_max d_grid (T1 ++ T2) t1_step
  = candidates t_min t_max d_grid T1 t1_step
    ++ candidates t_min t_max d_grid T2 t1_step.
Proof. unfold candidates. rewrite filter_app, flat_map_app. reflexivity. Qed.

(** X16. The search decomposes over the duration grid.  On well-formed
    inputs, if the searches over [T1] and over [T2] return [r1] and [r2],
    the search over [T1 ++ T2] returns the sum of the two counts and the
    best of [r2] when its chi-square is strictly smaller than that of [r1],
    the best of [r1] otherwise. *)
Theorem fit_transit_split_durations (time flux : list Q) (sigma : uncertainty)
    (d_grid T1 T2 : list Q) (t1_step : Q) (r1 r2 : FitResult) :
  length flux = length time ->
  sigma_shape (length time) sigma ->
  sigma_all (fun s => ~ s == 0) sigma ->
  fit_transit time flux sigma d_grid T1 t1_step = Ok r1 ->
  fit_transit time flux sigma d_grid T2 t1_step = Ok r2 ->
  exists r,
    fit_transit time flux sigma d_grid (T1 ++ T2) t1_step = Ok r /\
    count r = (count r1 + count r2)%nat /\
    kept (if flt (best_chi2 r2) (best_chi2 r1) then r2 else r1) r.
Proof.
  intros Hlen Hshape Hnz Hfit1 Hfit2.
  destruct (np_min time) as [t_min |] eqn:Hmin;
    [| unfold fit_transit in Hfit1; rewrite Hmin in Hfit1; discriminate].
  destruct (np_max time) as [t_max |] eqn:Hmax;
    [| unfold fit_transit in Hfit1; rewrite Hmin, Hmax in Hfit1; discriminate].
  rewrite (fit_transit_flat _ _ _ _ _ _ _ _ Hmin Hmax) in Hfit1.
  rewrite (fit_transit_flat _ _ _ _ _ _ _ _ Hmin Hmax) in Hfit2.
  rewrite (fit_transit_flat _ _ _ _ _ _ _ _ Hmin Hmax).
  rewrite existsb_app, candidates_app, for_each_app.
  destruct (Qeq_bool t1_step 0 && existsb (feasible t_min t_max) T1) eqn:E1;
    [discriminate |].
  destruct (Qeq_bool t1_step 0 && existsb (feasible t_min t_max) T2) eqn:E2;
    [discriminate |].
  rewrite andb_orb_distrib_r, E1, E2. cbn [orb]. rewrite Hfit1. cbn [bind].
  set (cs2 := candidates t_min t_max d_grid T2 t1_step) in *.
  assert (Hfin : forall c, In c cs2 ->
                           exists q, score time flux sigma c = Ok (Num q))
    by (intros c _; apply score_finite; assumption).
  destruct (scan_argmin time flux sigma cs2 r1 Hfin)
    as (r & Hrun & Hcount & Hres).
  destruct (scan_argmin time flux sigma cs2 fit_init Hfin)
    as (r2' & Hrun2 & Hcount2 & Hres2).
  rewrite Hfit2 in Hrun2. injection Hrun2 as <-. simpl in Hcount2.
  exists r. split; [exact Hrun |]. split; [lia |].
  destruct Hres as [[Hk Hge] | Hbest]; destruct Hres2 as [[Hk2 Hge2] | Hbest2].
  - (* no candidate in the second grid *)
    destruct Hk2 as (_ & _ & _ & Hchi2 & _). rewrite Hchi2.
    rewrite (flt_special (best_chi2 fit_init)) by (left; reflexivity).
    exact Hk.
  - (* the second search found something, but nothing better than r1 *)
    destruct Hbest2 as (pre & T & d & t1 & post & q & Hcs & Hq & _ & Hch & _).
    destruct Hch as (_ & _ & _ & Hchi & _). rewrite Hchi.
    rewrite (Hge (T, d, t1) q); [exact Hk | rewrite Hcs; apply in_elt | exact Hq].
  - exfalso.
    destruct Hbest as (pre & T & d & t1 & post & q & Hcs & Hq & _).
    specialize (Hge2 (T, d, t1) q). rewrite Hcs in Hge2.
    specialize (Hge2 (in_elt _ _ _) Hq). discriminate Hge2.
  - (* both scans stop at the first minimum of the second grid *)
    destruct Hbest as (pre & T & d & t1 & post & q &
                       Hcs & Hq & Hlt & Hch & Hpre & Hpost).
    destruct Hbest2 as (pre' & T' & d' & t1' & post' & q' &
                        Hcs' & Hq' & _ & Hch' & Hpre' & Hpost').
    destruct (first_min_unique
                (fun c x => score time flux sigma c = Ok (Num x))
                pre pre' post post' (T, d, t1) (T', d', t1') q q')
      as (_ & Heq & _); try assumption.
    { rewrite <- Hcs, <- Hcs'. reflexivity. }
    injection Heq as <- <- <-. rewrite Hq in Hq'. injection Hq' as <-.
    destruct Hch' as (A' & B' & C' & D' & E').
    destruct Hch as (A & B & C & D & E).
    rewrite D', Hlt. unfold kept. rewrite A, B, C, D, E, A', B', C', D', E'.
    auto.
Qed.

Lemma split_durations_on_sample :
  exists r,
    fit_transit sample_time sample_flux sample_sigma
      sample_d_grid ([2] ++ sample_T_grid) sample_step = Ok r /\
    count r = (10 + count sample_result)%nat /\
    kept sample_result r.
Proof.
  apply (fit_transit_split_durations sample_time sample_flux sample_sigma
           sample_d_grid [2] sample_T_grid sample_step
           {| best_d := Some (1#2); best_T := Some 2; best_t1 := Some (4#2);
              best_chi2 := Num (256#4096);
              best_model := Some [1; 1; 1#2; 1#2; 1#2]; count := 10 |}
           sample_result).
  - reflexivity.
  - reflexivity.
  - simpl. repeat constructor; discriminate.
  - vm_compute. reflexivity.
  - vm_compute. reflexivity.
Defined.

(** ** Edge cases of the two leaf functions *)

Lemma zip_with_repeat {A B C} (f : A -> B -> C) (xs : list A) (y : B) :
  zip_with f xs (repeat y (length xs)) = map (fun x => f x y) xs.
Proof.
  induction xs as [| x xs IH]; simpl; [reflexivity |]. rewrite IH. reflexivity.
Qed.

(** X19. A scalar uncertainty is the constant per-point uncertainty: for
    observed and predicted flux of equal length, passing the float [s] or an
    array holding [s] at every sample gives the same result. *)
Theorem chi2_test_scalar_is_constant_array (observed predicted : list Q) (s : Q) :
  length observed = length predicted ->
  chi2_test observed predicted (Scalar s)
  = chi2_test observed predicted (PerPoint (repeat s (length observed))).
Proof.
  intro Hlen. unfold chi2_test.
  rewrite broadcast2_same_length by exact Hlen. cbn [bind].
  assert (Hres : length (zip_with Qminus observed predicted) = length observed)
    by (apply zip_with_length; exact Hlen).
  rewrite broadcast2_same_length by (rewrite repeat_length; exact Hres).
  rewrite <- Hres, zip_with_repeat. reflexivity.
Qed.

Lemma scalar_is_constant_array_on_sample :
  chi2_test sample_flux (create_flux_model sample_time 2 (1#2) 2) (Scalar (1#10))
  = chi2_test sample_flux (create_flux_model sample_time 2 (1#2) 2)
      (PerPoint (repeat (1#10) (length sample_flux))).
Proof.
  apply (chi2_test_scalar_is_constant_array sample_flux
           (create_flux_model sample_time 2 (1#2) 2) (1#10)).
  reflexivity.
Defined.

(** ** Where the returned parameters come from *)

(** X17. The returned parameters are taken from the grids: in any returned
    result that found something, [best_d] is an element of [d_grid],
    [best_T] an element of [T_grid], and [best_t1] an element of the
    start-time grid built for [best_T]. *)
Theorem fit_transit_result_from_grids (time flux : list Q)
    (sigma : uncertainty) (d_grid T_grid : list Q) (t1_step t_min t_max : Q)
    (r : FitResult) (d : Q) :
  np_min time = Ok t_min -> np_max time = Ok t_max ->
  fit_transit time flux sigma d_grid T_grid t1_step = Ok r ->
  best_d r = Some d ->
  In d d_grid /\
  exists T t1,
    best_T r = Some T /\ In T T_grid /\
    best_t1 r = Some t1 /\ In t1 (t1_grid_for t_min t_max t1_step T).
Proof.
  intros Hmin Hmax Hfit Hd.
  destruct (found_is_candidate _ _ _ _ _ _ _ _ Hfit Hd)
    as (t_min' & t_max' & T & t1 & Hmin' & Hmax' & Hin & Hch & _).
  rewrite Hmin in Hmin'. rewrite Hmax in Hmax'.
  injection Hmin' as <-. injection Hmax' as <-.
  apply in_candidates in Hin. destruct Hin as ((HT & _) & (Hdg & _) & Hgrid).
  split; [exact Hdg |]. exists T, t1.
  split; [apply Hch |]. split; [exact HT |]. split; [apply Hch | exact Hgrid].
Qed.

Lemma result_from_grids_on_sample :
  In (1#2) sample_d_grid /\
  exists T t1,
    best_T sample_result = Some T /\ In T sample_T_grid /\
    best_t1 sample_result = Some t1 /\
    In t1 (t1_grid_for 0 4 sample_step T).
Proof.
  apply (fit_transit_result_from_grids sample_time sample_flux sample_sigma
           sample_d_grid sample_T_grid sample_step 0 4 sample_result (1#2)).
  - reflexivity.
  - reflexivity.
  - vm_compute. reflexivity.
  - reflexivity.
Defined.

(** * The leaf functions in binary64 arithmetic *)

Module Binary64Facts.
Import Floats Binary64.
Local Open Scope float_scope.

(** ** create_flux_model *)




(** ** Rounding never yields NaN and keeps the sign *)

Lemma shr_1_nonneg (mrs : shr_record) :
  (0 <= shr_m mrs)%Z -> (0 <= shr_m (shr_1 mrs))%Z.
Proof.
  destruct mrs as [m r s]. destruct m as [| p | p]; simpl; intro H;
    try lia; destruct p; simpl; lia.
Qed.

Lemma iter_pos_invariant {A} (P : A -> Prop) (f : A -> A) :
  (forall x, P x -> P (f x)) ->
  forall p x, P x -> P (iter_pos f p x).
Proof.
  intro Hf. induction p as [p IH | p IH |]; intros x Hx; simpl; auto.
Qed.

Lemma shr_nonneg (mrs : shr_record) (e n : Z) :
  (0 <= shr_m mrs)%Z -> (0 <= shr_m (fst (shr mrs e n)))%Z.
Proof.
  intro H. destruct n as [| p | p]; simpl; try exact H.
  apply (iter_pos_invariant (fun x => (0 <= shr_m x)%Z));
    [exact shr_1_nonneg | exact H].
Qed.

Lemma shr_fexp_nonneg (p e m ex : Z) (l : location) :
  (0 <= m)%Z -> (0 <= shr_m (fst (shr_fexp p e m ex l)))%Z.
Proof.
  intro H. unfold shr_fexp. apply shr_nonneg.
  destruct l as [| []]; exact H.
Qed.

Lemma round_nearest_even_nonneg (m : Z) (l : location) :
  (0 <= m)%Z -> (0 <= round_nearest_even m l)%Z.
Proof.
  intro H. destruct l as [| []]; simpl; try exact H;
    try destruct (Z.even m); lia.
Qed.

Lemma binary_round_aux_signed (p e : Z) (s : bool) (m ex : Z) (l : location) :
  (0 <= m)%Z -> signed s (binary_round_aux p e s m ex l).
Proof.
  intro H. unfold binary_round_aux.
  destruct (shr_fexp p e m ex l) as [mrs' e'] eqn:E1.
  assert (H1 : (0 <= shr_m mrs')%Z).
  { change mrs' with (fst (mrs', e')). rewrite <- E1.
    apply shr_fexp_nonneg. exact H. }
  destruct (shr_fexp p e (round_nearest_even (shr_m mrs')
                            (loc_of_shr_record mrs')) e' loc_Exact)
    as [mrs'' e''] eqn:E2.
  assert (H2 : (0 <= shr_m mrs'')%Z).
  { change mrs'' with (fst (mrs'', e'')). rewrite <- E2.
    apply shr_fexp_nonneg, round_nearest_even_nonneg. exact H1. }
  destruct (shr_m mrs'') as [| q | q]; simpl; [reflexivity | | lia].
  destruct (e'' <=? e - p)%Z; reflexivity.
Qed.

Lemma binary_round_signed (p e : Z) (s : bool) (m : positive) (ex : Z) :
  signed s (binary_round p e s m ex).
Proof.
  unfold binary_round. destruct (shl_align _ _ _) as [mz ez].
  apply binary_round_aux_signed. lia.
Qed.

Lemma signed_not_nan (s : bool) (x : spec_float) : signed s x -> not_nan x.
Proof. destruct x; simpl; auto. Qed.

Lemma signed_nonneg (x : spec_float) : signed false x -> sf_nonneg x.
Proof. destruct x; simpl; auto. Qed.

Lemma binary_normalize_not_nan (p e z ex : Z) (s : bool) :
  not_nan (binary_normalize p e z ex s).
Proof.
  destruct z; simpl; [exact I | |];
    eapply signed_not_nan, binary_round_signed.
Qed.

(** ** The four operations of [chi2_test] on specified floats *)

Lemma SFsub_finite (p e : Z) (x y : spec_float) :
  sf_finite x -> sf_finite y -> not_nan (SFsub p e x y).
Proof.
  destruct x as [sx | sx | | sx mx ex], y as [sy | sy | | sy my ey];
    simpl; try contradiction; intros _ _; try exact I.
  - destruct sx, sy; exact I.
  - apply binary_normalize_not_nan.
Qed.

Lemma SFdiv_core_nonneg (p e : Z) (m1 m2 : positive) (e1 e2 : Z) :
  (0 <= fst (fst (SFdiv_core_binary p e (Zpos m1) e1 (Zpos m2) e2)))%Z.
Proof.
  unfold SFdiv_core_binary. cbv zeta.
  match goal with
  | |- context [Z.div_eucl ?a ?b] =>
      assert (Ha : (0 <= a)%Z);
      [| pose proof (Z.div_pos a b Ha ltac:(lia)) as Hq;
         unfold Z.div in Hq; destruct (Z.div_eucl a b) as [q r]; exact Hq]
  end.
  match goal with
  | |- (0 <= match ?s with _ => _ end)%Z => destruct s
  end; try lia.
  apply Z.shiftl_nonneg. lia.
Qed.

Lemma SFdiv_positive (p e : Z) (x : spec_float) (my : positive) (ey : Z) :
  not_nan x -> not_nan (SFdiv p e x (S754_finite false my ey)).
Proof.
  destruct x as [sx | sx | | sx mx ex]; simpl; try contradiction;
    intros _; try exact I.
  pose proof (SFdiv_core_nonneg p e mx my ex ey) as H.
  destruct (SFdiv_core_binary p e (Zpos mx) ex (Zpos my) ey) as [[mz ez] lz].
  eapply signed_not_nan, binary_round_aux_signed. exact H.
Qed.

Lemma SFmul_self (p e : Z) (x : spec_float) :
  not_nan x -> sf_nonneg (SFmul p e x x).
Proof.
  destruct x as [sx | sx | | sx mx ex]; simpl; try contradiction; intros _.
  - exact I.
  - apply xorb_nilpotent.
  - apply signed_nonneg. rewrite xorb_nilpotent.
    apply binary_round_aux_signed. lia.
Qed.

Lemma SFadd_nonneg (p e : Z) (x y : spec_float) :
  sf_nonneg x -> sf_nonneg y -> sf_nonneg (SFadd p e x y).
Proof.
  destruct x as [sx | sx | | sx mx ex], y as [sy | sy | | sy my ey];
    simpl; try contradiction; intros Hx Hy; subst; try exact I;
    try reflexivity.
  - destruct sx, sy; exact I.
  - apply signed_nonneg. simpl. apply binary_round_signed.
Qed.


(** ** From the primitive numbers to their specification *)

Lemma Prim2SF_zero : Prim2SF 0 = S754_zero false.
Proof. vm_compute. reflexivity. Qed.

Lemma Prim2SF_neg_zero : Prim2SF (-0) = S754_zero true.
Proof. vm_compute. reflexivity. Qed.

Lemma Prim2SF_infinity : Prim2SF infinity = S754_infinity false.
Proof. vm_compute. reflexivity. Qed.

Lemma finite_spec (x : float) : finite x -> sf_finite (Prim2SF x).
Proof.
  unfold finite, is_finite, is_nan, is_infinity.
  rewrite !eqb_spec, abs_spec, Prim2SF_infinity.
  destruct (Prim2SF x) as [s | s | | s m e]; simpl; try exact (fun _ => I).
  - destruct s; discriminate.
  - discriminate.
Qed.

Lemma strictly_positive_spec (x : float) :
  strictly_positive x -> exists m e, Prim2SF x = S754_finite false m e.
Proof.
  intros [Hfin Hpos]. apply finite_spec in Hfin.
  rewrite ltb_spec, Prim2SF_zero in Hpos.
  destruct (Prim2SF x) as [s | s | | s m e]; simpl in *; try contradiction;
    try discriminate.
  destruct s; [discriminate | eauto].
Qed.

Lemma nonneg_spec (x : float) : sf_nonneg (Prim2SF x) -> nonneg x.
Proof.
  unfold nonneg. rewrite leb_spec, Prim2SF_zero.
  destruct (Prim2SF x) as [s | s | | s m e]; simpl; try contradiction;
    try reflexivity; intros ->; reflexivity.
Qed.

Lemma add_nonneg (x y : float) :
  sf_nonneg (Prim2SF x) -> sf_nonneg (Prim2SF y) -> sf_nonneg (Prim2SF (x + y)).
Proof. rewrite add_spec. apply SFadd_nonneg. Qed.

(** One term of the sum is zero, positive or [+inf]. *)
Lemma term_nonneg (o p s : float) :
  finite o -> finite p -> strictly_positive s ->
  sf_nonneg (Prim2SF (((o - p) / s) * ((o - p) / s))).
Proof.
  intros Ho Hp Hs. destruct (strictly_positive_spec s Hs) as (m & e & Hsf).
  rewrite mul_spec. apply SFmul_self.
  rewrite div_spec, Hsf. apply SFdiv_positive.
  rewrite sub_spec. apply SFsub_finite; apply finite_spec; assumption.
Qed.

(** ** np.sum keeps what addition keeps *)

Section Sum.
Variable P : float -> Prop.
Hypothesis P_add : forall x y, P x -> P y -> P (x + y).

Lemma fold_left_add_keeps (a : list float) :
  forall acc, P acc -> Forall P a -> P (fold_left add a acc).
Proof.
  induction a as [| x a IH]; intros acc Hacc Ha; simpl; [exact Hacc |].
  inversion Ha; subst. apply IH; auto.
Qed.

Lemma add8_keeps (r g : acc8) : acc8_all P r -> acc8_all P g -> acc8_all P (add8 r g).
Proof.
  destruct r as [[[[[[[r0 r1] r2] r3] r4] r5] r6] r7].
  destruct g as [[[[[[[g0 g1] g2] g3] g4] g5] g6] g7].
  simpl. intuition auto.
Qed.

Lemma tree8_keeps (r : acc8) : acc8_all P r -> P (tree8 r).
Proof.
  destruct r as [[[[[[[r0 r1] r2] r3] r4] r5] r6] r7].
  simpl. intuition auto.
Qed.

Lemma add_groups_keeps (n : nat) :
  forall (a : list float) (r : acc8),
    (length a <= n)%nat -> acc8_all P r -> Forall P a ->
    acc8_all P (fst (add_groups r a)) /\ Forall P (snd (add_groups r a)).
Proof.
  induction n as [| n IH]; intros a r Hlen Hr Ha.
  - destruct a; [simpl; auto | simpl in Hlen; lia].
  - destruct a as [| a0 [| a1 [| a2 [| a3 [| a4 [| a5 [| a6 [| a7 rest]]]]]]]];
      try (simpl; auto; fail).
    cbn [add_groups].
    repeat match goal with
           | H : Forall P (_ :: _) |- _ => inversion H; subst; clear H
           end.
    apply IH.
    + simpl in Hlen. lia.
    + apply add8_keeps; [exact Hr | simpl; auto 10].
    + assumption.
Qed.

Lemma block_sum_keeps (a : list float) :
  P (-0) -> Forall P a -> P (block_sum a).
Proof.
  intros H0 Ha. unfold block_sum.
  destruct a as [| a0 [| a1 [| a2 [| a3 [| a4 [| a5 [| a6 [| a7 rest]]]]]]]];
    try (apply fold_left_add_keeps; assumption).
  repeat match goal with
         | H : Forall P (_ :: _) |- _ => inversion H; subst; clear H
         end.
  pose proof (add_groups_keeps (length rest) rest
                (a0, a1, a2, a3, a4, a5, a6, a7) (le_n _)) as Hg.
  destruct (add_groups (a0, a1, a2, a3, a4, a5, a6, a7) rest) as [r leftover].
  destruct Hg as [Hr Hl]; [simpl; auto 10 | assumption |].
  apply fold_left_add_keeps; [apply tree8_keeps; exact Hr | exact Hl].
Qed.

Lemma pairwise_sum_keeps (fuel : nat) :
  forall a, P (-0) -> Forall P a -> P (pairwise_sum fuel a).
Proof.
  induction fuel as [| fuel IH]; intros a H0 Ha; simpl;
    destruct (length a <=? 128)%nat; try (apply block_sum_keeps; assumption).
  rewrite <- (firstn_skipn (length a / 2 - (length a / 2) mod 8) a) in Ha.
  apply Forall_app in Ha. destruct Ha as [H1 H2].
  apply P_add; apply IH; assumption.
Qed.

Lemma np_sum_keeps (a : list float) :
  P 0 -> P (-0) -> Forall P a -> P (np_sum a).
Proof.
  intros H0 Hn Ha. unfold np_sum. apply P_add; [exact H0 |].
  apply pairwise_sum_keeps; assumption.
Qed.
End Sum.

(** ** chi2_test *)

Lemma chi2_test_by_index (observed predicted : list float) (sigma : uncertainty) :
  length observed = length predicted ->
  sigma_shape (length observed) sigma ->
  chi2_test observed predicted sigma
  = Ok (np_sum (map (chi2_term observed predicted sigma)
                    (seq 0 (length observed)))).
Proof.
  intros Hlen Hshape. unfold chi2_test.
  rewrite (broadcast2_same_length sub) by exact Hlen. cbn [bind].
  assert (Hres : length (zip_with sub observed predicted) = length observed)
    by (apply zip_with_length; exact Hlen).
  assert (Hscaled :
    match sigma with
    | Scalar s => Ok (map (fun r => r / s) (zip_with sub observed predicted))
    | PerPoint ss => broadcast2 div (zip_with sub observed predicted) ss
    end
    = Ok (map (fun i => (nth i observed 0 - nth i predicted 0) / sigma_at sigma i)
              (seq 0 (length observed)))).
  { destruct sigma as [s | ss]; simpl in Hshape.
    - f_equal. rewrite (map_nth_seq _ 0), Hres.
      apply map_ext_in. intros i Hi. apply in_seq in Hi.
      rewrite (nth_zip_with sub 0 0 0) by (assumption || lia). reflexivity.
    - rewrite broadcast2_same_length by lia. f_equal.
      rewrite <- (map_id (zip_with div _ ss)).
      rewrite (map_nth_seq _ 0), zip_with_length, Hres by lia.
      apply map_ext_in. intros i Hi. apply in_seq in Hi.
      rewrite (nth_zip_with div 0 0 0) by lia.
      rewrite (nth_zip_with sub 0 0 0) by (assumption || lia). reflexivity. }
  rewrite Hscaled. cbn [bind]. rewrite map_map. reflexivity.
Qed.

Lemma nth_finite (a : list float) (i : nat) : Forall finite a -> finite (nth i a 0).
Proof.
  intro Ha. destruct (Nat.lt_ge_cases i (length a)) as [Hi | Hi].
  - rewrite Forall_forall in Ha. apply Ha, nth_In. exact Hi.
  - rewrite nth_overflow by exact Hi. reflexivity.
Qed.

Lemma sigma_at_positive (n : nat) (sigma : uncertainty) (i : nat) :
  sigma_shape n sigma -> sigma_all strictly_positive sigma -> (i < n)%nat ->
  strictly_positive (sigma_at sigma i).
Proof.
  destruct sigma as [s | ss]; simpl; intros Hshape Hall Hi; [exact Hall |].
  rewrite Forall_forall in Hall. apply Hall, nth_In. lia.
Qed.

(** C8, as the code has it.  For observed and predicted flux of equal
    length, all finite, and an uncertainty that is one finite, strictly
    positive scalar or an equal-length sequence of such values, [chi2_test]
    returns the binary64 evaluation of the sum over all [i] of
    [((observed_i - predicted_i) / sigma_i)^2]: every difference, quotient
    and square is rounded and the terms are added by [np.sum].  That result
    is never NaN and never negative: it is zero, positive or [+inf]. *)
Theorem chi2_test_rounded_sum (observed predicted : list float)
    (sigma : uncertainty) :
  length observed = length predicted ->
  sigma_shape (length observed) sigma ->
  Forall finite observed -> Forall finite predicted ->
  sigma_all strictly_positive sigma ->
  exists r,
    chi2_test observed predicted sigma = Ok r /\
    r = np_sum (map (chi2_term observed predicted sigma)
                    (seq 0 (length observed))) /\
    nonneg r.
Proof.
  intros Hlen Hshape Ho Hp Hs. eexists.
  split; [apply chi2_test_by_index; assumption |]. split; [reflexivity |].
  apply nonneg_spec.
  apply (np_sum_keeps (fun x => sf_nonneg (Prim2SF x))).
  - exact add_nonneg.
  - rewrite Prim2SF_zero. exact I.
  - rewrite Prim2SF_neg_zero. exact I.
  - apply Forall_forall. intros x Hx. apply in_map_iff in Hx.
    destruct Hx as (i & <- & Hi). apply in_seq in Hi. unfold chi2_term.
    apply term_nonneg; [apply nth_finite; exact Ho | apply nth_finite; exact Hp |].
    apply (sigma_at_positive (length observed)); [assumption .. | lia].
Qed.

Lemma rounded_sum_on_sample :
  exists r,
    chi2_test [1; 1; 1; 0.5; 0.5] (create_flux_model [0; 1; 2; 3; 4] 2 0.5 2)
      (PerPoint [1; 1; 2; 1; 1]) = Ok r /\
    r = np_sum (map (chi2_term [1; 1; 1; 0.5; 0.5]
                       (create_flux_model [0; 1; 2; 3; 4] 2 0.5 2)
                       (PerPoint [1; 1; 2; 1; 1]))
                    (seq 0 (length [1; 1; 1; 0.5; 0.5]))) /\
    nonneg r.
Proof.
  apply (chi2_test_rounded_sum [1; 1; 1; 0.5; 0.5]
           (create_flux_model [0; 1; 2; 3; 4] 2 0.5 2)
           (PerPoint [1; 1; 2; 1; 1])).
  - reflexivity.
  - reflexivity.
  - repeat constructor.
  - vm_compute. repeat constructor.
  - simpl. repeat constructor.
Defined.

(** C8, as stated, fails in three ways for strictly positive uncertainties.
    Overflow: [((1.5 - 1) / 2^-600)^2] is [+inf], not a real number.
    Underflow: [((1.5 - 1) / 2^600)^2] is [0] although the real sum is
    positive.  Rounding: with [sigma = 3] the real sum is [1/36], and the
    returned float is [8006399337547548 * 2^-58], which is another number. *)
Lemma chi2_test_leaves_the_reals :
  strictly_positive 0x1p-600 /\ strictly_positive 0x1p600 /\
  strictly_positive 3 /\
  chi2_test [1.5] [1] (Scalar 0x1p-600) = Ok infinity /\
  chi2_test [1.5] [1] (Scalar 0x1p600) = Ok 0 /\
  (exists r, chi2_test [1.5] [1] (Scalar 3) = Ok r /\
             Prim2SF r = S754_finite false 8006399337547548 (-58) /\
             (8006399337547548 * 36 <> 2 ^ 58)%Z).
Proof.
  repeat split; try (vm_compute; reflexivity).
  eexists. split; [vm_compute; reflexivity |].
  split; [vm_compute; reflexivity | vm_compute; discriminate].
Qed.

(** ** A perfect fit *)

Lemma SFsub_self (p e : Z) (x : spec_float) :
  sf_finite x -> exists s, SFsub p e x x = S754_zero s.
Proof.
  destruct x as [sx | sx | | sx mx ex]; simpl; try contradiction; intros _.
  - destruct sx; eauto.
  - rewrite Z.sub_diag. simpl. eauto.
Qed.

Lemma term_of_equal_samples (o s : float) :
  finite o -> strictly_positive s ->
  exists z, Prim2SF (((o - o) / s) * ((o - o) / s)) = S754_zero z.
Proof.
  intros Ho Hs. destruct (strictly_positive_spec s Hs) as (m & e & Hsf).
  destruct (SFsub_self prec emax (Prim2SF o) (finite_spec o Ho)) as [z Hz].
  rewrite mul_spec, div_spec, sub_spec, Hsf.
  unfold SF64sub. rewrite Hz. simpl. eauto.
Qed.

Lemma add_zeros (x y : float) :
  (exists s, Prim2SF x = S754_zero s) -> (exists s, Prim2SF y = S754_zero s) ->
  exists s, Prim2SF (x + y) = S754_zero s.
Proof.
  intros [sx Hx] [sy Hy]. rewrite add_spec, Hx, Hy. simpl.
  destruct sx, sy; eauto.
Qed.

(** X11. A perfect fit scores zero: for a finite flux and finite, strictly
    positive uncertainties of matching shape, [chi2_test] of an array
    against itself returns zero. *)
Theorem chi2_test_of_equal_arrays (observed : list float) (sigma : uncertainty) :
  sigma_shape (length observed) sigma ->
  Forall finite observed ->
  sigma_all strictly_positive sigma ->
  exists r, chi2_test observed observed sigma = Ok r /\ (r =? 0) = true.
Proof.
  intros Hshape Ho Hs. eexists.
  split; [apply chi2_test_by_index; [reflexivity | exact Hshape] |].
  assert (Hz : exists s,
             Prim2SF (np_sum (map (chi2_term observed observed sigma)
                                  (seq 0 (length observed)))) = S754_zero s).
  { apply (np_sum_keeps (fun x => exists s, Prim2SF x = S754_zero s)).
    - exact add_zeros.
    - exists false. apply Prim2SF_zero.
    - exists true. apply Prim2SF_neg_zero.
    - apply Forall_forall. intros x Hx. apply in_map_iff in Hx.
      destruct Hx as (i & <- & Hi). apply in_seq in Hi. unfold chi2_term.
      apply term_of_equal_samples; [apply nth_finite; exact Ho |].
      apply (sigma_at_positive (length observed)); [assumption .. | lia]. }
  destruct Hz as [s Hz]. rewrite eqb_spec, Hz, Prim2SF_zero. reflexivity.
Qed.

Lemma equal_arrays_on_sample :
  exists r,
    chi2_test [1; 1; 1; 0.5; 0.5] [1; 1; 1; 0.5; 0.5] (PerPoint [1; 1; 2; 1; 1])
    = Ok r /\ (r =? 0) = true.
Proof.
  apply (chi2_test_of_equal_arrays [1; 1; 1; 0.5; 0.5]
           (PerPoint [1; 1; 2; 1; 1])).
  - reflexivity.
  - repeat constructor.
  - simpl. repeat constructor.
Defined.
End Binary64Facts.
